(** * smartdispatch: command chunking, job folders and walltime parsing

    A shallow embedding of [smartdispatch/utils.py] and of
    [scripts/smart_dispatch.py], and the properties of the batch
    dispatcher that follow from the code.

    Conventions of the embedding.
    - A Python [int] is a [Z]; a [str] is a [string], one [ascii] per
      character (a byte of a Python 2 string).
    - A call that can raise returns a [result]; an exception carries its
      class and its message.
    - [float(b)] raises [OverflowError] beyond the largest double.
      [math.ceil(a / float(b))] is the ceiling of the quotient of the
      integers for [|a| < 2^53]: the quotient of the doubles is rounded,
      but not onto or across an integer.  For a larger [a] the value is
      left to the machine and nothing is assumed about it.
    - The file system is the set of the paths that exist, some of them
      regular files; [os.makedirs] fails on an existing leaf and on a
      regular file in the place of a directory.
    - A shell command returns its output or raises. *)

From Stdlib Require Import ZArith List String Ascii Bool Lia.
From Stdlib Require DecimalString DecimalZ.
From stdpp Require Import base option list gmap strings.

Local Open Scope string_scope.
Local Open Scope Z_scope.

(** ** Python values, exceptions and builtins *)

Module Py.

Inductive exn_class :=
| ValueError
| ZeroDivisionError
| LookupError
| NameError
| OSError
| OverflowError
| CalledProcessError.

Record exn := Exn { exn_cls : exn_class; exn_msg : string }.

Inductive result (A : Type) :=
| Ok (a : A)
| Raise (e : exn).
Arguments Ok {A} a.
Arguments Raise {A} e.

#[global] Instance result_ret : MRet result := fun A a => Ok a.
#[global] Instance result_bind : MBind result := fun A B f m =>
  match m with
  | Ok a => f a
  | Raise e => Raise e
  end.

Definition raises {A} (r : result A) (c : exn_class) : Prop :=
  match r with
  | Ok _ => False
  | Raise e => exn_cls e = c
  end.

(** [len(x)] *)
Definition len {A} (l : list A) : Z := Z.of_nat (length l).

(** Iteration of [range(start, stop, step)] for a positive step: the loop
    variable starts at [start] and advances by [step] while it is below
    [stop].  [fuel] bounds the number of iterations. *)
Fixpoint range_up (fuel : nat) (i stop step : Z) : list Z :=
  match fuel with
  | O => []
  | S fuel' =>
      if i <? stop then i :: range_up fuel' (i + step) stop step else []
  end.

(** The same for a negative step: while the variable is above [stop]. *)
Fixpoint range_down (fuel : nat) (i stop step : Z) : list Z :=
  match fuel with
  | O => []
  | S fuel' =>
      if stop <? i then i :: range_down fuel' (i + step) stop step else []
  end.

(** [range(start, stop, step)].  A step of at least one in absolute value
    covers the distance between the bounds in at most that many
    iterations. *)
Definition range (start stop step : Z) : result (list Z) :=
  if step =? 0 then
    Raise (Exn ValueError "range() arg 3 must not be zero")
  else if 0 <? step then
    Ok (range_up (Z.to_nat (stop - start)) start stop step)
  else
    Ok (range_down (Z.to_nat (start - stop)) start stop step).

(** A slice bound [k] on a sequence of length [n]: a negative bound counts
    from the end, and both are clipped to the sequence. *)
Definition slice_bound (n k : Z) : nat :=
  Z.to_nat (if k <? 0 then Z.max 0 (n + k) else Z.min k n).

(** [l[i:j]] *)
Definition slice {A} (l : list A) (i j : Z) : list A :=
  let lo := slice_bound (len l) i in
  let hi := slice_bound (len l) j in
  take (hi - lo) (drop lo l).

(** *** Strings *)

Definition dquote : string := String (ascii_of_nat 34) "".
Definition newline : ascii := ascii_of_nat 10.

(** [len(s)] *)
Definition slen (s : string) : Z := Z.of_nat (String.length s).

(** [s[:k]] *)
Definition str_upto (s : string) (k : Z) : string :=
  substring 0 (slice_bound (slen s) k) s.

(** [s.startswith(p)] and [s.endswith(p)] *)
Definition startswith (s p : string) : bool := String.prefix p s.
Definition endswith (s p : string) : bool :=
  String.prefix (String.rev p) (String.rev s).

(** The objects that reach [str()] and [int()] in this program. *)
Inductive object :=
| Int (z : Z)
| Str (s : string).

(** [str(x)]: a string is itself, an integer is written in decimal. *)
Definition str (x : object) : string :=
  match x with
  | Str s => s
  | Int z => DecimalString.NilEmpty.string_of_int (Z.to_int z)
  end.

Definition is_digit (c : ascii) : bool :=
  (48 <=? nat_of_ascii c)%nat && (nat_of_ascii c <=? 57)%nat.

Definition digit_value (c : ascii) : Z := Z.of_nat (nat_of_ascii c) - 48.

(** White space as [str.strip()] and [int()] see it (the ASCII part). *)
Definition is_space (c : ascii) : bool :=
  ((9 <=? nat_of_ascii c)%nat && (nat_of_ascii c <=? 13)%nat)
  || (nat_of_ascii c =? 32)%nat.

Fixpoint lstrip (s : string) : string :=
  match s with
  | String c s' => if is_space c then lstrip s' else s
  | EmptyString => EmptyString
  end.

Fixpoint rstrip (s : string) : string :=
  match s with
  | String c s' =>
      match rstrip s' with
      | EmptyString => if is_space c then EmptyString else String c EmptyString
      | t => String c t
      end
  | EmptyString => EmptyString
  end.

(** [s.strip()] *)
Definition strip (s : string) : string := rstrip (lstrip s).

(** The value of a run of decimal digits, most significant first. *)
Fixpoint digits_value (acc : Z) (s : string) : option Z :=
  match s with
  | EmptyString => Some acc
  | String c s' =>
      if is_digit c then digits_value (10 * acc + digit_value c) s' else None
  end.

Definition decimal (s : string) : option Z :=
  match s with
  | EmptyString => None
  | _ => digits_value 0 s
  end.

(** [int(x)]: an integer is itself; a string is stripped of surrounding
    white space and read as an optional sign and at least one decimal
    digit.  (The interpreter's message also quotes the literal.) *)
Definition int (x : object) : result Z :=
  match x with
  | Int z => Ok z
  | Str s =>
      let t := strip s in
      let v :=
        match t with
        | String "-" d => Z.opp <$> decimal d
        | String "+" d => decimal d
        | _ => decimal t
        end in
      match v with
      | Some z => Ok z
      | None => Raise (Exn ValueError "invalid literal for int() with base 10")
      end
  end.

(** [s.split(sep)] for a one-character separator. *)
Fixpoint split (sep : ascii) (s : string) : list string :=
  match s with
  | EmptyString => [EmptyString]
  | String c s' =>
      if Ascii.eqb c sep then EmptyString :: split sep s'
      else match split sep s' with
           | field :: fields => String c field :: fields
           | [] => [String c EmptyString]
           end
  end.

(** *** The [re] module, as far as [TIME_REGEX] needs it *)

Module re.

Inductive regex :=
| Void
| Eps
| Lit (c : ascii)
| Digit                       (* \d *)
| Cat (r1 r2 : regex)
| Alt (r1 r2 : regex)
| Star (r : regex).           (* r* *)

(** [(?:r)?] *)
Definition Opt (r : regex) : regex := Alt r Eps.
(** [(r)]: a capturing group matches what [r] matches. *)
Definition Group (r : regex) : regex := r.

Fixpoint nullable (r : regex) : bool :=
  match r with
  | Void => false
  | Eps => true
  | Lit _ => false
  | Digit => false
  | Cat r1 r2 => nullable r1 && nullable r2
  | Alt r1 r2 => nullable r1 || nullable r2
  | Star _ => true
  end.

(** What is left of [r] to match after the character [c]. *)
Fixpoint deriv (c : ascii) (r : regex) : regex :=
  match r with
  | Void => Void
  | Eps => Void
  | Lit d => if Ascii.eqb c d then Eps else Void
  | Digit => if is_digit c then Eps else Void
  | Cat r1 r2 =>
      if nullable r1 then Alt (Cat (deriv c r1) r2) (deriv c r2)
      else Cat (deriv c r1) r2
  | Alt r1 r2 => Alt (deriv c r1) (deriv c r2)
  | Star r1 => Cat (deriv c r1) (Star r1)
  end.

(** [r] matches the whole of [s]. *)
Fixpoint fullmatch (r : regex) (s : string) : bool :=
  match s with
  | EmptyString => nullable r
  | String c s' => fullmatch (deriv c r) s'
  end.

(** [s] without its last character, when that is a newline. *)
Fixpoint before_final_newline (s : string) : option string :=
  match s with
  | EmptyString => None
  | String c EmptyString =>
      if Ascii.eqb c newline then Some EmptyString else None
  | String c s' => String c <$> before_final_newline s'
  end.

(** [re.compile("^r$").match(s)] is not [None].  Without [re.MULTILINE],
    [^] holds at the start only, and [$] holds at the end of the string
    and also just before a newline that ends the string. *)
Definition match_ (r : regex) (s : string) : bool :=
  fullmatch r s
  || match before_final_newline s with
     | Some s' => fullmatch r s'
     | None => false
     end.

End re.

(** *** [os.path] *)

(** [os.path.join(a, b)] on a POSIX system. *)
Definition path_join (a b : string) : string :=
  if startswith b "/" then b
  else if String.eqb a "" || endswith a "/" then a ++ b
  else a ++ "/" ++ b.

End Py.

Import Py.

(** ** smartdispatch/utils.py *)

Module utils.

(** [TIME_REGEX]: the pattern, written here with a blank after each star,
    is  ^(?:(?:(?:(\d* ):)?(\d* ):)?(\d* ):)?(\d* )$  *)
Definition TIME_REGEX : re.regex :=
  let field := re.Group (re.Star re.Digit) in
  let colon := re.Lit ":" in
  re.Cat
    (re.Opt (re.Cat
      (re.Opt (re.Cat
        (re.Opt (re.Cat field colon))
        (re.Cat field colon)))
      (re.Cat field colon)))
    field.

(** The loop [while len(split) < 4: split = [0] + split]. *)
Fixpoint pad_fields (fuel : nat) (split : list object) : list object :=
  match fuel with
  | O => split
  | S fuel' =>
      if len split <? 4 then pad_fields fuel' (Int 0 :: split) else split
  end.

Definition walltime_to_seconds (walltime : string) : result Z :=
  if negb (re.match_ TIME_REGEX walltime) then
    Raise (Exn ValueError
             ("Invalid walltime format: " ++ walltime ++ String newline
                "It must be either DD:HH:MM:SS, HH:MM:SS, MM:SS or S"))
  else
    let split := Str <$> Py.split ":" walltime in
    let split := pad_fields 4 split in
    values ← mapM int split;
    match values with
    | [days; hours; minutes; seconds] =>
        mret ((((((days * 24) + hours) * 60) + minutes) * 60) + seconds)
    | _ => Raise (Exn ValueError "wrong number of values to unpack")
    end.

Definition jobname_generator (jobname : string) (job_id : object) : string :=
  let job_id := str job_id in
  if slen jobname + slen job_id >? 63 then
    str_upto jobname (63 - slen job_id) ++ "_" ++ job_id
  else
    jobname ++ "_" ++ job_id.

(** [chunks(sequence, n)]: the list of the values the generator yields,
    or the exception its first step raises. *)
Definition chunks {A} (sequence : list A) (n : Z) : result (list (list A)) :=
  indices ← range 0 (len sequence) n;
  mret (map (fun i => slice sequence i (i + n)) indices).

(** *** Slugs *)

(** The classes [\w] and [\s] of a pattern compiled without flags, and the
    class [[-\s]]. *)
Definition is_upper (c : ascii) : bool :=
  (65 <=? nat_of_ascii c)%nat && (nat_of_ascii c <=? 90)%nat.
Definition is_lower (c : ascii) : bool :=
  (97 <=? nat_of_ascii c)%nat && (nat_of_ascii c <=? 122)%nat.
Definition is_word (c : ascii) : bool :=
  is_digit c || is_upper c || is_lower c || Ascii.eqb c "_".
Definition is_separator (c : ascii) : bool :=
  Ascii.eqb c "-" || is_space c.

(** [re.sub('[^\w\s-]', '', value)] *)
Fixpoint remove_non_word (value : string) : string :=
  match value with
  | EmptyString => EmptyString
  | String c rest =>
      if is_word c || is_space c || Ascii.eqb c "-"
      then String c (remove_non_word rest)
      else remove_non_word rest
  end.

(** [value.lower()] *)
Definition lower_char (c : ascii) : ascii :=
  if is_upper c then ascii_of_nat (nat_of_ascii c + 32) else c.
Fixpoint lower (value : string) : string :=
  match value with
  | EmptyString => EmptyString
  | String c rest => String (lower_char c) (lower rest)
  end.

(** [re.sub('[-\s]+', '_', value)]: every maximal run of hyphens and white
    space becomes one underscore.  [in_run] tells that the character before
    was of the run. *)
Fixpoint underscore_runs (in_run : bool) (value : string) : string :=
  match value with
  | EmptyString => EmptyString
  | String c rest =>
      if is_separator c then
        if in_run then underscore_runs true rest
        else String "_" (underscore_runs true rest)
      else String c (underscore_runs false rest)
  end.

(** [slugify(value)].  [to_ascii] stands for line 112, the normalisation
    of [unicodedata] followed by the removal of what is not ASCII. *)
Definition slugify (to_ascii : string -> string) (value : string) : string :=
  let value := to_ascii value in
  let value := lower (strip (remove_non_word value)) in
  underscore_runs false value.

(** *** Escaped characters *)

Definition backslash : ascii := "\".

(** [c.encode("hex")]: the two hexadecimal digits of a byte, in lower
    case. *)
Definition hex_digit (n : nat) : ascii :=
  if (n <? 10)%nat then ascii_of_nat (48 + n) else ascii_of_nat (87 + n).
Definition hex (c : ascii) : string :=
  String (hex_digit (nat_of_ascii c / 16))
    (String (hex_digit (nat_of_ascii c mod 16)) EmptyString).

(** The value of a hexadecimal digit, in either case. *)
Definition hex_value (c : ascii) : option nat :=
  let n := nat_of_ascii c in
  if is_digit c then Some (n - 48)%nat
  else if (97 <=? n)%nat && (n <=? 102)%nat then Some (n - 87)%nat
  else if (65 <=? n)%nat && (n <=? 70)%nat then Some (n - 55)%nat
  else None.

(** [s.decode("hex")] for the two characters [h] and [l]; [None] when it
    raises for a character that is no hexadecimal digit. *)
Definition unhex (h l : ascii) : option ascii :=
  match hex_value h, hex_value l with
  | Some h, Some l => Some (ascii_of_nat (16 * h + l))
  | _, _ => None
  end.

(** [hexify(match)] for a match of a backslash and the character [c]. *)
Definition hexify (c : ascii) : string :=
  String backslash (String "x" (hex c)).

(** [encode_escaped_characters(text, escaping_character)]: the call
    [re.sub(r"\\.", hexify, text)] replaces, from left to right, every
    backslash followed by a character other than a newline.  The second
    argument is not used. *)
Fixpoint sub_escaped (text : string) : string :=
  match text with
  | EmptyString => EmptyString
  | String b tail =>
      match tail with
      | String c rest =>
          if Ascii.eqb b backslash && negb (Ascii.eqb c newline)
          then hexify c ++ sub_escaped rest
          else String b (sub_escaped tail)
      | EmptyString => String b EmptyString
      end
  end.

Definition encode_escaped_characters
    (text : string) (escaping_character : string) : string :=
  sub_escaped text.

(** [re.sub(r"\\x..", unhexify, text)]: every backslash followed by [x] and
    two characters other than a newline is replaced, from left to right, by
    the character of that code; [None] when [unhexify] raises. *)
Fixpoint sub_hex (text : string) : option string :=
  match text with
  | EmptyString => Some EmptyString
  | String b tail =>
      match tail with
      | String x (String h (String l rest)) =>
          if Ascii.eqb b backslash && Ascii.eqb x "x"
             && negb (Ascii.eqb h newline) && negb (Ascii.eqb l newline)
          then match unhex h l with
               | Some c => String c <$> sub_hex rest
               | None => None
               end
          else String b <$> sub_hex tail
      | _ => String b <$> sub_hex tail
      end
  end.

Definition decode_escaped_characters (text : string) : option string :=
  if slen text =? 0 then Some EmptyString else sub_hex text.

(** *** The cluster and its launcher *)

Definition CLUSTER_ENV_NAMES : list string := ["CLUSTER"; "CC_CLUSTER"].

(** The loop of [look_up_cluster_name_env_var] over the names of the
    variables. *)
Fixpoint look_up_names (environ : gmap string string) (names : list string)
    : option string :=
  match names with
  | [] => None
  | env_var :: names =>
      let cluster_name := default "" (environ !! env_var) in
      if negb (String.eqb (strip cluster_name) "") then Some cluster_name
      else look_up_names environ names
  end.

(** [look_up_cluster_name_env_var()], with [os.environ] as a map. *)
Definition look_up_cluster_name_env_var (environ : gmap string string)
    : option string :=
  look_up_names environ CLUSTER_ENV_NAMES.

Definition MSUB_CLUSTERS : list string := ["helios"].
Definition SUPPORTED_LAUNCHERS : list string := ["qsub"; "msub"; "sbatch"].

(** [command_is_available(command)]; [find_executable] is
    [distutils.spawn.find_executable]. *)
Definition command_is_available
    (find_executable : string -> option string) (command : string) : bool :=
  match find_executable command with
  | Some _ => true
  | None => false
  end.

(** The loop of [get_launcher] over the launchers. *)
Fixpoint first_available
    (find_executable : string -> option string) (launchers : list string)
    : option string :=
  match launchers with
  | [] => None
  | launcher :: launchers =>
      if command_is_available find_executable launcher then Some launcher
      else first_available find_executable launchers
  end.

(** [get_launcher(cluster_name)]; the name of the cluster is [None] when
    it was not detected. *)
Definition get_launcher
    (find_executable : string -> option string)
    (cluster_name : option string) : option string :=
  if match cluster_name with
     | Some name => bool_decide (name ∈ MSUB_CLUSTERS)
     | None => false
     end
  then Some "msub"
  else first_available find_executable SUPPORTED_LAUNCHERS.

End utils.

(** ** scripts/smart_dispatch.py *)

Module smart_dispatch.

(** *** The process and what surrounds it *)

(** Calls on the collaborators of the script, in the order they are made:
    the job-script builder [pbs], the [command_manager] of the worker
    pool, and the shell. *)
Inductive event :=
| PBSGenerator_init (queue walltime : string)
| pbs_add_commands (commands : list string)
| pbs_save (filename : string)
| pbs_clear_commands
| CommandManager_init (commands_filename : string)
| set_commands_to_run (commands : list string)
| reset_running_commands
| subprocess_check_output (cmd : string)
| print_ (text : string).

(** The state a run acts on.  [dirs] holds the paths that exist, compared
    as the strings the script builds, and [files] marks those of them that
    are regular files.  [namespace] holds the string-valued names that a
    global lookup finds besides those bound by the module's own
    statements; when the file is run as a script it is empty. *)
Record world := World {
  cwd : string;
  dirs : gset string;
  files : gset string;
  namespace : gmap string string;
  trace : list event
}.

Definition io (A : Type) : Type := world → result A * world.

#[global] Instance io_ret : MRet io := λ A a w, (Ok a, w).
#[global] Instance io_bind : MBind io := λ A B f m w,
  match m w with
  | (Ok a, w') => f a w'
  | (Raise e, w') => (Raise e, w')
  end.

Definition lift {A} (r : result A) : io A := λ w, (r, w).

Definition emit (e : event) : io () := λ w,
  (Ok (), World (cwd w) (dirs w) (files w) (namespace w) (trace w ++ [e])).

(** The names the module binds at its top level. *)
Definition module_names : list string :=
  [ "os"; "argparse"; "math"; "check_output"; "utils"; "CommandManager";
    "PBSGenerator"; "smartdispatch"; "LOGS_FOLDERNAME"; "AVAILABLE_QUEUES";
    "main"; "parse_arguments"; "_gen_job_paths"; "get_job_folders";
    "create_job_folders" ].

(** Reading a name that the function never assigns and that is not in
    [module_names]. *)
Definition load_global (name : string) : io string := λ w,
  match namespace w !! name with
  | Some v => (Ok v, w)
  | None =>
      (Raise (Exn NameError ("global name '" ++ name ++ "' is not defined")), w)
  end.

(** Reading a local variable that may not have been assigned yet. *)
Definition load_fast {A} (name : string) (v : option A) : io A :=
  match v with
  | Some a => mret a
  | None =>
      lift (Raise (Exn NameError
        ("local variable '" ++ name ++ "' referenced before assignment")))
  end.

(** [os.getcwd()] *)
Definition getcwd : io string := λ w, (Ok (cwd w), w).

(** [os.path.exists(path)] *)
Definition path_exists (path : string) : io bool := λ w,
  (Ok (bool_decide (path ∈ dirs w)), w).

(** The directories above [rest] in the path [done ++ rest]. *)
Fixpoint parents (done rest : string) : list string :=
  match rest with
  | EmptyString => []
  | String c rest' =>
      (if Ascii.eqb c "/" && negb (String.eqb done "") then [done] else [])
      ++ parents (done ++ String c EmptyString) rest'
  end.

(** A regular file: a path that exists and is marked in [files].  A path
    under which another path exists is a directory, whatever the mark. *)
Definition regular_file (w : world) (path : string) : bool :=
  bool_decide (path ∈ dirs w) && bool_decide (path ∈ files w)
  && forallb (λ below, negb (bool_decide (path ∈ parents "" below)))
             (elements (dirs w)).

(** [os.makedirs(path)]: creates the leaf and the missing directories
    above it.  An existing leaf is an error ([EEXIST]), and so is a
    regular file in the place of a directory above the leaf ([ENOTDIR]);
    nothing is created then. *)
Definition makedirs (path : string) : io () := λ w,
  if bool_decide (path ∈ dirs w) then
    (Raise (Exn OSError "File exists"), w)
  else if existsb (regular_file w) (parents "" path) then
    (Raise (Exn OSError "Not a directory"), w)
  else
    (Ok (), World (cwd w)
                  (dirs w ∪ {[path]} ∪ list_to_set (parents "" path))
                  (files w) (namespace w) (trace w)).

(** An open file, as [argparse] hands it over for [--commandsFile]. *)
Record file := File { name : string; content : string }.

(** Functions of the [smartdispatch] package whose code is elsewhere, the
    attribute [_commands_filename] of a [CommandManager] built on a given
    file name, and what the machine answers: [check_output] is the output
    of a shell command, or the [CalledProcessError] or [OSError] that
    [subprocess.check_output] raises for it; [inexact_ceil_div a b] is
    [int(math.ceil(a / float(b)))] for an [a] beyond the integers that a
    double holds exactly. *)
Class Collaborators := {
  get_commands_from_file : file → list string;
  unfold_argument : string → list string;
  generate_name_from_arguments : list (list string) → string;
  get_commands_from_arguments : list (list string) → list string;
  replace_uid_tag : list string → list string;
  generate_name_from_command : string → Z → string;
  _commands_filename : string → string;
  check_output : string → result string;
  inexact_ceil_div : Z → Z → Z
}.

(** The parsed command line.  The sub-command decides which positional
    arguments exist. *)
Inductive mode_t :=
| launch (commandAndOptions : list string)
| resume (batch_uid : string).

Record Namespace := {
  queueName : string;
  walltime : string;
  nbCommandsPerNode : Z;
  doNotLaunch : bool;
  commandsFile : option file;
  pool : option Z;
  mode : mode_t
}.

(** *** The script *)

Definition LOGS_FOLDERNAME : string := "SMART_DISPATCH_LOGS".

Definition _gen_job_paths (jobname : string) : io (string * string) :=
  cwd ← getcwd;
  let path_smartdispatch_logs := path_join cwd LOGS_FOLDERNAME in
  let path_job := path_join path_smartdispatch_logs jobname in
  let path_job_logs := path_join path_job "logs" in
  let path_job_commands := path_join path_job "commands" in
  mret (path_job_logs, path_job_commands).

Definition get_job_folders (jobname : string) : io (string * string) :=
  paths ← _gen_job_paths jobname;
  let '(path_job_logs, path_job_commands) := paths in
  commands_exist ← path_exists path_job_commands;
  (if negb commands_exist then
     lift (Raise (Exn LookupError
       ("Batch UID (" ++ jobname ++ ") does not exist! Cannot resume.")))
   else mret ());;
  logs_exist ← path_exists path_job_logs;
  (if negb logs_exist then makedirs path_job_logs else mret ());;
  mret (path_job_logs, path_job_commands).

Definition create_job_folders (jobname : string) : io (string * string) :=
  paths ← _gen_job_paths jobname;
  let '(path_job_logs, path_job_commands) := paths in
  commands_exist ← path_exists path_job_commands;
  (if negb commands_exist then makedirs path_job_commands else mret ());;
  logs_exist ← path_exists path_job_logs;
  (if negb logs_exist then makedirs path_job_logs else mret ());;
  mret (path_job_logs, path_job_commands).

(** [float(n)] raises [OverflowError] for an integer that rounds beyond
    the largest double, that is from [2^1024 - 2^970] on in absolute
    value.  Integers below [2^53] in absolute value are doubles. *)
Definition float_limit : Z := 2 ^ 1024 - 2 ^ 970.
Definition exact_limit : Z := 2 ^ 53.

Section script.
Context `{Collaborators}.

(** [int(math.ceil(a / float(b)))] for integers [a] and [b].  [float(b)]
    is evaluated first, then the division.  For [a] below [2^53] in
    absolute value the result is the ceiling of the quotient of the
    integers: the quotient of the doubles is rounded to a double, but
    never onto or across an integer. *)
Definition ceil_div (a b : Z) : result Z :=
  if float_limit <=? Z.abs b then
    Raise (Exn OverflowError "long int too large to convert to float")
  else if b =? 0 then Raise (Exn ZeroDivisionError "float division by zero")
  else if Z.abs a <? exact_limit then Ok (- ((- a) / b))
  else Ok (inexact_ceil_div a b).

(** Lines 42-57: the job folders, and the commands in launch mode.  In
    resume mode the local [commands] stays unassigned. *)
Definition job_folders (args : Namespace)
  : io (string * string * option (list string)) :=
  match mode args with
  | launch commandAndOptions =>
      let '(jobname, commands) :=
        match commandsFile args with
        | Some f => (name f, get_commands_from_file f)
        | None =>
            let arguments := map unfold_argument commandAndOptions in
            (generate_name_from_arguments arguments,
             get_commands_from_arguments arguments)
        end in
      let commands := replace_uid_tag commands in
      paths ← create_job_folders jobname;
      mret (paths.1, paths.2, Some commands)
  | resume batch_uid =>
      paths ← get_job_folders batch_uid;
      mret (paths.1, paths.2, None)
  end.

Definition worker_command (commands_filename path_job_logs : string)
  : string :=
  "smart_worker.py " ++ dquote ++ commands_filename ++ dquote
    ++ " " ++ dquote ++ path_job_logs ++ dquote.

(** Lines 60-71: with [--pool], the commands go to the command manager
    and are replaced with that many worker commands. *)
Definition worker_pool (args : Namespace) (path_job_logs : string)
    (commands : option (list string)) : io (option (list string)) :=
  match pool args with
  | Some pool =>
      qsub_directory ← load_global "qsub_directory";
      let commands_filename := path_join qsub_directory "commands.txt" in
      emit (CommandManager_init commands_filename);;
      match mode args with
      | launch _ =>
          commands ← load_fast "commands" commands;
          emit (set_commands_to_run commands)
      | resume _ => emit reset_running_commands
      end;;
      let worker_command :=
        worker_command (_commands_filename commands_filename)
                       path_job_logs in
      mret (Some (replicate (Z.to_nat pool) worker_command))
  | None => mret commands
  end.

(** Lines 74-77: [commands[i]] gets its two redirections, for each index
    [i] of the list in turn. *)
Fixpoint add_redirects (fuel : nat) (path_job_logs : string) (i : nat)
    (commands : list string) : list string :=
  match fuel with
  | O => commands
  | S fuel' =>
      match commands !! i with
      | None => commands
      | Some command =>
          let log_filename :=
            path_join path_job_logs
                      (generate_name_from_command command 30) in
          let commands :=
            alter (λ c, c ++ " 1>> " ++ dquote ++ log_filename ++ ".o"
                          ++ dquote) i commands in
          let commands :=
            alter (λ c, c ++ " 2>> " ++ dquote ++ log_filename ++ ".e"
                          ++ dquote) i commands in
          add_redirects fuel' path_job_logs (S i) commands
      end
  end.

(** Lines 80-85: the number of jobs, the number of commands per file,
    and the groups that [utils.chunks] cuts. *)
Definition job_groups (commands : list string) (nbCommandsPerNode : Z)
  : result (list (list string)) :=
  let nb_commands := len commands in
  nb_jobs ← ceil_div nb_commands nbCommandsPerNode;
  nb_commands_per_file ← ceil_div nb_commands nb_jobs;
  utils.chunks commands nb_commands_per_file.

(** Lines 84-90: one job file per group; [i] is the index that
    [enumerate] gives to the head of [groups]. *)
Fixpoint write_job_files (path_job_commands : string) (i : Z)
    (groups : list (list string)) (qsub_filenames : list string)
  : io (list string) :=
  match groups with
  | [] => mret qsub_filenames
  | commands_per_file :: groups' =>
      let qsub_filename :=
        path_join path_job_commands
                  ("job_commands_" ++ str (Int i) ++ ".sh") in
      emit (pbs_add_commands commands_per_file);;
      emit (pbs_save qsub_filename);;
      emit pbs_clear_commands;;
      write_job_files path_job_commands (i + 1) groups'
                      (qsub_filenames ++ [qsub_filename])
  end.

(** Lines 93-96: a submission that fails ends the loop with its
    exception. *)
Fixpoint launch_jobs (qsub_filenames : list string) : io () :=
  match qsub_filenames with
  | [] => mret ()
  | qsub_filename :: rest =>
      let cmd := "qsub " ++ qsub_filename in
      emit (subprocess_check_output cmd);;
      qsub_output ← lift (check_output cmd);
      emit (print_ qsub_output);;
      launch_jobs rest
  end.

(** [main()], on the arguments that [parse_arguments()] returned. *)
Definition main (args : Namespace) : io () :=
  emit (PBSGenerator_init (queueName args) (walltime args));;
  folders ← job_folders args;
  let '(path_job_logs, path_job_commands, commands) := folders in
  commands ← worker_pool args path_job_logs commands;
  commands ← load_fast "commands" commands;
  let commands := add_redirects (length commands) path_job_logs 0 commands in
  groups ← lift (job_groups commands (nbCommandsPerNode args));
  qsub_filenames ← write_job_files path_job_commands 0 groups [];
  if negb (doNotLaunch args) then launch_jobs qsub_filenames else mret ().

End script.

(** *** The command line *)

(** An entry of [AVAILABLE_QUEUES]. *)
Record queue := Queue { coresPerNode : Z; maxWalltime : string }.

Definition AVAILABLE_QUEUES : gmap string queue :=
  list_to_map
    [ ("qtest@mp2", Queue 24 "00:01:00:00");
      ("qwork@mp2", Queue 24 "05:00:00:00");
      ("qfbb@mp2", Queue 288 "05:00:00:00");
      ("qfat256@mp2", Queue 48 "05:00:00:00");
      ("qfat512@mp2", Queue 48 "02:00:00:00");
      ("qtest@ms", Queue 8 "00:01:00:00");
      ("qwork@ms", Queue 8 "05:00:00:00");
      ("qlong@ms", Queue 8 "41:16:00:00") ].

(** What [parser.parse_args()] returns: an option that was not given is
    [None]. *)
Module parsed.
Record Namespace := {
  queueName : string;
  walltime : option string;
  nbCommandsPerNode : option Z;
  doNotLaunch : bool;
  commandsFile : option file;
  pool : option Z;
  mode : mode_t
}.
End parsed.

(** How [parse_arguments] ends: it returns the arguments, or
    [parser.error] prints its message and exits, or the look-up of the
    queue in [AVAILABLE_QUEUES] raises [KeyError]. *)
Inductive outcome :=
| Returns (args : Namespace)
| ParserError (message : string)
| KeyError (key : string).

(** Lines 118-134 of [parse_arguments], on the result of
    [parser.parse_args()]. *)
Definition parse_arguments (args : parsed.Namespace) : outcome :=
  let invalid :=
    match parsed.mode args with
    | launch commandAndOptions =>
        if match parsed.commandsFile args with None => true | _ => false end
           && (len commandAndOptions <? 1) then
          Some "You need to specify a command to launch."
        else if negb (bool_decide
                        (is_Some (AVAILABLE_QUEUES !! parsed.queueName args)))
                && (match parsed.nbCommandsPerNode args with
                    | None => true | _ => false end
                    || match parsed.walltime args with
                       | None => true | _ => false end) then
          Some "Unknown queue, --nbCommandsPerNode and --walltime must be set."
        else None
    | resume _ =>
        match parsed.pool args with
        | None => Some "The resume feature only works with the --pool argument."
        | Some _ => None
        end
    end in
  match invalid with
  | Some message => ParserError message
  | None =>
      let nbCommandsPerNode :=
        match parsed.nbCommandsPerNode args with
        | None => coresPerNode <$> AVAILABLE_QUEUES !! parsed.queueName args
        | Some n => Some n
        end in
      match nbCommandsPerNode with
      | None => KeyError (parsed.queueName args)
      | Some nbCommandsPerNode =>
          let walltime :=
            match parsed.walltime args with
            | None => maxWalltime <$> AVAILABLE_QUEUES !! parsed.queueName args
            | Some t => Some t
            end in
          match walltime with
          | None => KeyError (parsed.queueName args)
          | Some walltime =>
              Returns {| queueName := parsed.queueName args;
                         walltime := walltime;
                         nbCommandsPerNode := nbCommandsPerNode;
                         doNotLaunch := parsed.doNotLaunch args;
                         commandsFile := parsed.commandsFile args;
                         pool := parsed.pool args;
                         mode := parsed.mode args |}
          end
      end
  end.

End smart_dispatch.

Import smart_dispatch.

(** ** Vocabulary of the statements *)

(** The folders of a batch, as [_gen_job_paths] builds them. *)
Definition job_path (w : world) (jobname : string) : string :=
  path_join (path_join (cwd w) LOGS_FOLDERNAME) jobname.
Definition logs_path (w : world) (jobname : string) : string :=
  path_join (job_path w jobname) "logs".
Definition commands_path (w : world) (jobname : string) : string :=
  path_join (job_path w jobname) "commands".

(** A world that differs from [w] in its directories only. *)
Definition with_dirs (w : world) (d : gset string) : world :=
  World (cwd w) d (files w) (namespace w) (trace w).

(** A world that differs from [w] by the calls made since. *)
Definition after (w : world) (calls : list event) : world :=
  World (cwd w) (dirs w) (files w) (namespace w) (trace w ++ calls).

(** The job file of the [i]-th group. *)
Definition job_file (path_job_commands : string) (i : Z) : string :=
  path_join path_job_commands ("job_commands_" ++ str (Int i) ++ ".sh").

Fixpoint job_files (path_job_commands : string) (i : Z)
    (groups : list (list string)) : list string :=
  match groups with
  | [] => []
  | _ :: groups' =>
      job_file path_job_commands i :: job_files path_job_commands (i + 1) groups'
  end.

(** What the script builder is asked for a list of groups, the first of
    which has index [i]. *)
Fixpoint job_calls (path_job_commands : string) (i : Z)
    (groups : list (list string)) : list event :=
  match groups with
  | [] => []
  | group :: groups' =>
      pbs_add_commands group
        :: pbs_save (job_file path_job_commands i)
        :: pbs_clear_commands
        :: job_calls path_job_commands (i + 1) groups'
  end.

(** The groups handed to the script builder in a trace. *)
Definition added_groups (tr : list event) : list (list string) :=
  omap (λ e, match e with pbs_add_commands g => Some g | _ => None end) tr.

(** The job files that a trace submits, in order. *)
Definition submitted (tr : list event) : list string :=
  omap (λ e, match e with
             | subprocess_check_output cmd => Some cmd
             | _ => None
             end) tr.

(** The scheduler takes the job file: [qsub] returns an output. *)
Definition accepted `{Collaborators} (qsub_filename : string) : Prop :=
  exists qsub_output, check_output ("qsub " ++ qsub_filename) = Ok qsub_output.

(** What a shell command printed; nothing if it failed. *)
Definition output_of (r : result string) : string :=
  match r with
  | Ok output => output
  | Raise _ => ""
  end.

(** The submissions of lines 93-96 when each is accepted. *)
Definition launch_calls `{Collaborators} (qsub_filenames : list string)
  : list event :=
  flat_map (λ f, [subprocess_check_output ("qsub " ++ f);
                  print_ (output_of (check_output ("qsub " ++ f)))])
           qsub_filenames.

(** A command with the two redirections of lines 74-77. *)
Definition redirected `{Collaborators} (path_job_logs command : string)
  : string :=
  let log_filename :=
    path_join path_job_logs (generate_name_from_command command 30) in
  (command ++ " 1>> " ++ dquote ++ log_filename ++ ".o" ++ dquote)
    ++ " 2>> " ++ dquote ++ log_filename ++ ".e" ++ dquote.

(** The job name and the commands of a launch (lines 43-53). *)
Definition launch_jobname `{Collaborators} (args : Namespace)
    (commandAndOptions : list string) : string :=
  match commandsFile args with
  | Some f => name f
  | None => generate_name_from_arguments (map unfold_argument commandAndOptions)
  end.

Definition launch_commands `{Collaborators} (args : Namespace)
    (commandAndOptions : list string) : list string :=
  replace_uid_tag
    match commandsFile args with
    | Some f => get_commands_from_file f
    | None => get_commands_from_arguments (map unfold_argument commandAndOptions)
    end.

(** The job name of a run, the commands its local variable holds after
    lines 42-57 (none in resume mode), and what the run needs to find. *)
Definition batch_jobname `{Collaborators} (args : Namespace) : string :=
  match mode args with
  | launch commandAndOptions => launch_jobname args commandAndOptions
  | resume batch_uid => batch_uid
  end.

Definition initial_commands `{Collaborators} (args : Namespace)
  : option (list string) :=
  match mode args with
  | launch commandAndOptions => Some (launch_commands args commandAndOptions)
  | resume _ => None
  end.

(** What a run needs to find: a launch, that its two folders exist or
    can be made, so that [create_job_folders] does not raise; a resume,
    the commands folder of its batch. *)
Definition batch_ready `{Collaborators} (args : Namespace) (w : world) : Prop :=
  match mode args with
  | launch commandAndOptions =>
      exists paths,
        (create_job_folders (launch_jobname args commandAndOptions) w).1
        = Ok paths
  | resume batch_uid => commands_path w batch_uid ∈ dirs w
  end.

(** The numbers that [float] takes, and the lengths for which the
    division of lines 81 and 82 is that of the integers. *)
Definition float_fits (n : Z) : Prop := Z.abs n < float_limit.
Definition exact_length {A} (l : list A) : Prop := len l < exact_limit.

(** What [main] does from line 74 on, once [commands] is known. *)
Definition finish `{Collaborators} (args : Namespace) (logs path : string)
    (commands : list string) (w : world) : result () * world :=
  match job_groups (map (redirected logs) commands) (nbCommandsPerNode args) with
  | Ok groups =>
      let w' := after w (job_calls path 0 groups) in
      if doNotLaunch args then (Ok (), w')
      else launch_jobs (job_files path 0 groups) w'
  | Raise e => (Raise e, w)
  end.

(** *** Sample runs *)

(** Stand-ins for the collaborators, used to run [main] on examples: a
    commands file holds one command per non-empty line, and a command line
    is one command. *)
Definition sample_collaborators : Collaborators := {|
  get_commands_from_file f :=
    List.filter (λ c, negb (String.eqb c "")) (Py.split newline (content f));
  unfold_argument a := [a];
  generate_name_from_arguments arguments := String.concat "_" (concat arguments);
  get_commands_from_arguments arguments := [String.concat " " (concat arguments)];
  replace_uid_tag commands := commands;
  generate_name_from_command command max_length_arg :=
    str_upto command max_length_arg;
  _commands_filename commands_filename := commands_filename;
  check_output cmd := Ok "1234.cluster";
  inexact_ceil_div a b := 0
|}.

(** The same with a scheduler that takes one job file, the first of the
    job [cmds], and refuses every other. *)
Definition strict_collaborators : Collaborators := {|
  get_commands_from_file := @get_commands_from_file sample_collaborators;
  unfold_argument := @unfold_argument sample_collaborators;
  generate_name_from_arguments :=
    @generate_name_from_arguments sample_collaborators;
  get_commands_from_arguments :=
    @get_commands_from_arguments sample_collaborators;
  replace_uid_tag := @replace_uid_tag sample_collaborators;
  generate_name_from_command :=
    @generate_name_from_command sample_collaborators;
  _commands_filename := @_commands_filename sample_collaborators;
  check_output cmd :=
    if String.eqb cmd
         "qsub /home/u/SMART_DISPATCH_LOGS/cmds/commands/job_commands_0.sh"
    then Ok "1234.cluster"
    else Raise (Exn CalledProcessError
                  "Command returned non-zero exit status 1");
  inexact_ceil_div := @inexact_ceil_div sample_collaborators
|}.

Definition three_echoes : file :=
  File "cmds"
       ("echo a" ++ String newline ("echo b" ++ String newline "echo c")).

Definition sample_args (commands : file) (per_node : Z) (workers : option Z)
  : Namespace :=
  {| queueName := "qwork@mp2"; walltime := "01:00:00";
     nbCommandsPerNode := per_node; doNotLaunch := true;
     commandsFile := Some commands; pool := workers; mode := launch [] |}.

(** The file system before a first launch from [/home/u]: the commands
    file [/home/u/cmds] is all there is. *)
Definition fresh_world : world :=
  World "/home/u" {[ "/home/u"; "/home/u/cmds" ]} {[ "/home/u/cmds" ]} ∅ [].

(** *** Walltimes *)

(** The strings a regular expression denotes. *)
Inductive lang : re.regex -> string -> Prop :=
| lang_eps : lang re.Eps ""
| lang_lit c : lang (re.Lit c) (String c "")
| lang_digit c : is_digit c = true -> lang re.Digit (String c "")
| lang_cat r1 r2 s1 s2 :
    lang r1 s1 -> lang r2 s2 -> lang (re.Cat r1 r2) (s1 ++ s2)
| lang_alt_l r1 r2 s : lang r1 s -> lang (re.Alt r1 r2) s
| lang_alt_r r1 r2 s : lang r2 s -> lang (re.Alt r1 r2) s
| lang_star_nil r : lang (re.Star r) ""
| lang_star_app r s1 s2 :
    lang r s1 -> lang (re.Star r) s2 -> lang (re.Star r) (s1 ++ s2).

(** The documented walltimes: one to four fields separated by colons,
    each field a non-empty run of decimal digits. *)
Fixpoint only (P : ascii -> bool) (s : string) : bool :=
  match s with
  | EmptyString => true
  | String c s' => P c && only P s'
  end.

Definition all_digits (s : string) : bool := only is_digit s.

Definition lacks (sep : ascii) (s : string) : bool :=
  only (λ c, negb (Ascii.eqb c sep)) s.

Definition time_field (s : string) : Prop :=
  s <> "" /\ all_digits s = true.

Definition walltime_fields (fields : list string) : Prop :=
  (1 <= length fields <= 4)%nat /\ Forall time_field fields.

(** The number a field of digits denotes. *)
Fixpoint digits_number (acc : Z) (s : string) : Z :=
  match s with
  | EmptyString => acc
  | String c s' => digits_number (10 * acc + digit_value c) s'
  end.

Definition field_value (s : string) : Z := digits_number 0 s.

(** The seconds of [D:H:M:S], the missing leading fields being zero. *)
Definition seconds_of (values : list Z) : Z :=
  match (replicate (4 - length values) 0 ++ values)%list with
  | [days; hours; minutes; seconds] =>
      (((days * 24 + hours) * 60 + minutes) * 60) + seconds
  | _ => 0
  end.

Definition walltime_seconds (fields : list string) : Z :=
  seconds_of (map field_value fields).

(** The fields of a walltime that is followed by one newline, as [split]
    returns them: the newline stays on the last field. *)
Fixpoint newline_ended (fields : list string) : list string :=
  match fields with
  | [] => []
  | [f] => [f ++ String newline ""]
  | f :: rest => f :: newline_ended rest
  end.

(** *** Slugs and escaped characters *)

(** The characters of a slug: lower-case letters, digits and the
    underscore. *)
Definition slug_char (c : ascii) : bool :=
  is_digit c || utils.is_lower c || Ascii.eqb c "_".

(** A text of ASCII characters. *)
Definition is_ascii (c : ascii) : bool := (nat_of_ascii c <? 128)%nat.

(** [text] without the backslash of each escaped character, read from
    left to right: a backslash escapes the character after it, unless
    that is a newline. *)
Fixpoint unescaped (text : string) : string :=
  match text with
  | EmptyString => EmptyString
  | String b tail =>
      match tail with
      | String c rest =>
          if Ascii.eqb b utils.backslash && negb (Ascii.eqb c newline)
          then String c (unescaped rest)
          else String b (unescaped tail)
      | EmptyString => String b EmptyString
      end
  end.

Definition is_hex_lower (c : ascii) : bool :=
  is_digit c || ((97 <=? nat_of_ascii c)%nat && (nat_of_ascii c <=? 102)%nat).

(** Every backslash of [text] begins a code, [x] and two hexadecimal
    digits in lower case, or stands before a newline or at the end. *)
Fixpoint escapes_hidden (text : string) : bool :=
  match text with
  | EmptyString => true
  | String b tail =>
      if Ascii.eqb b utils.backslash then
        match tail with
        | EmptyString => true
        | String c rest =>
            if Ascii.eqb c newline then escapes_hidden tail
            else
              Ascii.eqb c "x"
              && match rest with
                 | String h (String l rest') =>
                     is_hex_lower h && is_hex_lower l && escapes_hidden rest'
                 | _ => false
                 end
        end
      else escapes_hidden tail
  end.

(** * Properties *)

Section chunks_facts.
Context {A : Type}.
Implicit Types (l : list A) (n i : Z).

Lemma slice_nonneg l i j :
  0 <= i <= j ->
  slice l i j =
    take (Z.to_nat (Z.min j (len l)) - Z.to_nat (Z.min i (len l)))
         (drop (Z.to_nat (Z.min i (len l))) l).
Proof.
  intros H. unfold slice, slice_bound.
  destruct (Z.ltb_spec i 0), (Z.ltb_spec j 0); try lia. reflexivity.
Qed.

Lemma chunks_walk l n fuel i :
  0 < n -> 0 <= i ->
  (Z.to_nat (len l - i) <= fuel)%nat ->
  concat (map (fun k => slice l k (k + n)) (range_up fuel i (len l) n))
  = drop (Z.to_nat i) l.
Proof.
  intros Hn. revert i. induction fuel as [|fuel IH]; intros i Hi Hfuel; simpl.
  - symmetry. apply drop_ge. unfold len in *. lia.
  - destruct (Z.ltb_spec i (len l)) as [Hlt|Hge]; simpl.
    + rewrite IH by lia.
      rewrite slice_nonneg by lia.
      rewrite (Z.min_l i) by lia.
      destruct (Z.le_gt_cases (i + n) (len l)) as [Hfit|Hover].
      * rewrite (Z.min_l (i + n)) by lia.
        pose proof (take_drop (Z.to_nat (i + n) - Z.to_nat i)
                      (drop (Z.to_nat i) l)) as E.
        rewrite drop_drop in E.
        replace (Z.to_nat i + (Z.to_nat (i + n) - Z.to_nat i))%nat
          with (Z.to_nat (i + n)) in E by lia.
        exact E.
      * rewrite (Z.min_r (i + n)) by lia.
        rewrite (drop_ge l (Z.to_nat (i + n))) by (unfold len in *; lia).
        rewrite app_nil_r. apply take_ge.
        rewrite length_drop. unfold len. lia.
    + symmetry. apply drop_ge. unfold len in *. lia.
Qed.
End chunks_facts.

Lemma chunks_concat_eq {A} (sequence : list A) (n : Z) :
  0 < n ->
  exists groups,
    utils.chunks sequence n = Ok groups /\ concat groups = sequence.
Proof.
  intros Hn. unfold utils.chunks, range.
  destruct (Z.eqb_spec n 0); [lia|].
  destruct (Z.ltb_spec 0 n); [|lia].
  eexists. split; [reflexivity|].
  rewrite chunks_walk; [reflexivity|lia|lia|lia].
Qed.


(** ** The ceiling and the shape of the groups *)

Lemma ceiling_bounds a b :
  0 < b -> (- (- a / b) - 1) * b < a <= - (- a / b) * b.
Proof.
  intros Hb.
  pose proof (Z.div_mod (- a) b ltac:(lia)).
  pose proof (Z.mod_pos_bound (- a) b Hb). nia.
Qed.

Lemma exact_below_float : exact_limit < float_limit.
Proof. reflexivity. Qed.

Lemma exact_limit_eq : exact_limit = 2 ^ 53.
Proof. reflexivity. Qed.

#[local] Opaque float_limit exact_limit.

Lemma ceil_div_exact `{Collaborators} a b :
  Z.abs a < exact_limit -> float_fits b -> b <> 0 ->
  ceil_div a b = Ok (- (- a / b)).
Proof.
  unfold float_fits, ceil_div. intros Ha Hb Hb0.
  destruct (Z.leb_spec float_limit (Z.abs b)); [lia|].
  destruct (Z.eqb_spec b 0); [lia|].
  destruct (Z.ltb_spec (Z.abs a) exact_limit); [reflexivity|lia].
Qed.

Lemma ceil_div_overflow `{Collaborators} a b :
  ~ float_fits b -> raises (ceil_div a b) OverflowError.
Proof.
  unfold float_fits, ceil_div. intros Hb.
  destruct (Z.leb_spec float_limit (Z.abs b)); [reflexivity|lia].
Qed.

Lemma ceil_div_pos `{Collaborators} a b :
  Z.abs a < exact_limit -> 0 < b -> float_fits b ->
  exists q, ceil_div a b = Ok q /\ (q - 1) * b < a <= q * b.
Proof.
  intros Ha Hb Hfit. rewrite ceil_div_exact by (assumption || lia).
  eexists. split; [reflexivity|]. now apply ceiling_bounds.
Qed.

Lemma ceil_unique a b q q' :
  0 < b -> (q - 1) * b < a <= q * b -> (q' - 1) * b < a <= q' * b -> q = q'.
Proof. intros. nia. Qed.

Lemma range_up_lookup fuel i stop step (j : nat) :
  0 < step -> (Z.to_nat (stop - i) <= fuel)%nat ->
  range_up fuel i stop step !! j =
    if i + Z.of_nat j * step <? stop then Some (i + Z.of_nat j * step)
    else None.
Proof.
  intros Hs. revert i j. induction fuel as [|fuel IH]; intros i j Hf; simpl.
  - destruct (Z.ltb_spec (i + Z.of_nat j * step) stop); [nia|reflexivity].
  - destruct (Z.ltb_spec i stop) as [Hlt|Hge].
    + destruct j as [|j]; simpl.
      * rewrite Z.add_0_r. destruct (Z.ltb_spec i stop); [reflexivity|lia].
      * rewrite IH by lia.
        replace (i + step + Z.of_nat j * step)
          with (i + Z.of_nat (S j) * step) by lia.
        reflexivity.
    + rewrite lookup_nil.
      destruct (Z.ltb_spec (i + Z.of_nat j * step) stop); [nia|reflexivity].
Qed.

Section chunks_shape.
Context {A : Type}.
Implicit Types (l : list A) (n i : Z).

Lemma slice_len l i n :
  0 <= i < len l -> 0 < n ->
  len (slice l i (i + n)) = Z.min n (len l - i).
Proof.
  intros Hi Hn. rewrite slice_nonneg by lia. unfold len.
  rewrite length_take, length_drop. unfold len in *. lia.
Qed.

(** The groups of [chunks l n], by position. *)
Lemma chunks_lookup l n :
  0 < n ->
  exists groups,
    utils.chunks l n = Ok groups
    /\ forall j : nat,
         groups !! j =
           if Z.of_nat j * n <? len l
           then Some (slice l (Z.of_nat j * n) (Z.of_nat j * n + n))
           else None.
Proof.
  intros Hn. unfold utils.chunks, range.
  destruct (Z.eqb_spec n 0); [lia|].
  destruct (Z.ltb_spec 0 n); [|lia].
  eexists. split; [reflexivity|]. intros j.
  rewrite list_lookup_fmap, range_up_lookup by lia.
  rewrite Z.add_0_l.
  destruct (Z.ltb_spec (Z.of_nat j * n) (len l)); reflexivity.
Qed.

Lemma chunks_count l n groups q :
  0 < n -> (q - 1) * n < len l <= q * n ->
  (forall j : nat,
      groups !! j =
        if Z.of_nat j * n <? len l
        then Some (slice l (Z.of_nat j * n) (Z.of_nat j * n + n))
        else None) ->
  len groups = q.
Proof.
  intros Hn Hq Hlook. unfold len.
  assert (0 <= q) by (unfold len in *; nia).
  destruct (Z.lt_trichotomy (Z.of_nat (length groups)) q) as [Hlt|[Heq|Hgt]];
    [|exact Heq|].
  - pose proof (Hlook (length groups)) as Hj.
    rewrite (lookup_ge_None_2 groups (length groups)) in Hj by lia.
    destruct (Z.ltb_spec (Z.of_nat (length groups) * n) (len l));
      [discriminate|nia].
  - pose proof (Hlook (Z.to_nat q)) as Hj.
    destruct (lookup_lt_is_Some_2 groups (Z.to_nat q)) as [g Hg]; [lia|].
    rewrite Hg in Hj.
    destruct (Z.ltb_spec (Z.of_nat (Z.to_nat q) * n) (len l));
      [nia|discriminate].
Qed.
End chunks_shape.

Lemma job_groups_run `{collaborators : Collaborators}
    (commands : list string)
    (nbCommandsPerNode : Z) :
  1 <= len commands -> exact_length commands ->
  0 < nbCommandsPerNode -> float_fits nbCommandsPerNode ->
  exists nb_jobs nb_commands_per_file groups,
    ceil_div (len commands) nbCommandsPerNode = Ok nb_jobs
    /\ (nb_jobs - 1) * nbCommandsPerNode < len commands
       <= nb_jobs * nbCommandsPerNode
    /\ ceil_div (len commands) nb_jobs = Ok nb_commands_per_file
    /\ (nb_commands_per_file - 1) * nb_jobs < len commands
       <= nb_commands_per_file * nb_jobs
    /\ job_groups commands nbCommandsPerNode = Ok groups
    /\ utils.chunks commands nb_commands_per_file = Ok groups
    /\ len groups = nb_jobs
    /\ (forall (i : nat) g, groups !! i = Some g ->
          1 <= len g <= nb_commands_per_file
          /\ (Z.of_nat i + 1 < len groups -> len g = nb_commands_per_file)
          /\ (Z.of_nat i + 1 = len groups ->
                len g = len commands - (len groups - 1) * nb_commands_per_file)).
Proof.
  intros Hlen Hexact Hc Hfit. unfold exact_length in Hexact.
  pose proof exact_below_float as Hlimits.
  assert (Z.abs (len commands) < exact_limit) as Habs by lia.
  destruct (ceil_div_pos (len commands) nbCommandsPerNode Habs Hc Hfit)
    as (J & HJ & HJb).
  assert (0 < J) as HJpos by nia.
  assert (J <= len commands) as HJle by nia.
  assert (float_fits J) as HJfit by (unfold float_fits; lia).
  destruct (ceil_div_pos (len commands) J Habs HJpos HJfit)
    as (P & HP & HPb).
  assert (0 < P) as HPpos by nia.
  destruct (chunks_lookup commands P HPpos) as (groups & Hgroups & Hlook).
  assert (P <= nbCommandsPerNode) as HPc by nia.
  pose proof (ceiling_bounds (len commands) P HPpos) as HGb.
  set (G := - (- len commands / P)) in HGb.
  assert (G = J) as HGJ by nia. rewrite HGJ in HGb. clear HGJ G.
  pose proof (chunks_count commands P groups J HPpos HGb Hlook) as Hcount.
  exists J, P, groups. repeat split; try tauto; try lia.
  - unfold job_groups. rewrite HJ. simpl. rewrite HP. simpl. exact Hgroups.
  - rewrite Hlook in H.
    destruct (Z.ltb_spec (Z.of_nat i * P) (len commands)); [|discriminate].
    injection H as <-. rewrite slice_len by lia. lia.
  - rewrite Hlook in H.
    destruct (Z.ltb_spec (Z.of_nat i * P) (len commands)); [|discriminate].
    injection H as <-. rewrite slice_len by lia. lia.
  - intros Hi. rewrite Hlook in H.
    destruct (Z.ltb_spec (Z.of_nat i * P) (len commands)); [|discriminate].
    injection H as <-. rewrite slice_len by lia. nia.
  - intros Hi. rewrite Hlook in H.
    destruct (Z.ltb_spec (Z.of_nat i * P) (len commands)); [|discriminate].
    injection H as <-. rewrite slice_len by lia. nia.
Qed.

(** ** The job folders *)

Ltac io_step :=
  unfold mbind, io_bind, mret, io_ret, lift, getcwd, path_exists; simpl.

Lemma gen_job_paths_eq jobname w :
  _gen_job_paths jobname w =
    (Ok (path_join (path_join (path_join (cwd w) LOGS_FOLDERNAME) jobname)
                   "logs",
         path_join (path_join (path_join (cwd w) LOGS_FOLDERNAME) jobname)
                   "commands"), w).
Proof. reflexivity. Qed.

Lemma parents_leaf (done pre leaf : string) :
  lacks "/" leaf = true -> parents done (pre ++ leaf) = parents done pre.
Proof.
  intros Hleaf. revert done. induction pre as [|c pre IH]; intros done.
  - change ("" ++ leaf) with leaf. simpl.
    revert done. induction leaf as [|c leaf IH]; intros done; [reflexivity|].
    unfold lacks in Hleaf. cbn [only] in Hleaf.
    apply andb_prop in Hleaf as [Hc Hleaf]. apply negb_true_iff in Hc.
    cbn [parents]. rewrite Hc. cbn [andb app]. now apply IH.
  - change (String c pre ++ leaf) with (String c (pre ++ leaf)).
    cbn [parents]. now rewrite IH.
Qed.

Lemma path_join_leaf (a b : string) :
  startswith b "/" = false ->
  path_join a b =
    (if String.eqb a "" || endswith a "/" then a else a ++ "/") ++ b.
Proof.
  intros Hb. unfold path_join. rewrite Hb.
  destruct (String.eqb a "" || endswith a "/"); [reflexivity|].
  clear. induction a as [|c a IH]; [reflexivity|].
  change (String c a ++ "/" ++ b) with (String c (a ++ "/" ++ b)).
  change ((String c a ++ "/") ++ b) with (String c ((a ++ "/") ++ b)).
  now rewrite IH.
Qed.

(** The logs folder and the commands folder lie in the same directories. *)
Lemma parents_logs_commands (path_job : string) :
  parents "" (path_join path_job "logs")
  = parents "" (path_join path_job "commands").
Proof.
  rewrite !path_join_leaf by reflexivity.
  now rewrite !parents_leaf by reflexivity.
Qed.

Lemma regular_file_above w above path :
  path ∈ dirs w -> above ∈ parents "" path -> regular_file w above = false.
Proof.
  intros Hpath Habove. unfold regular_file.
  apply andb_false_iff. right. apply not_true_iff_false.
  rewrite forallb_forall. intros Hall.
  specialize (Hall path). rewrite negb_true_iff in Hall.
  rewrite bool_decide_eq_false in Hall. apply Hall; [|exact Habove].
  apply list_elem_of_In, elem_of_elements, Hpath.
Qed.

Lemma no_file_above w path path' :
  path' ∈ dirs w -> parents "" path = parents "" path' ->
  existsb (regular_file w) (parents "" path) = false.
Proof.
  intros Hpath' ->. apply not_true_iff_false. rewrite existsb_exists.
  intros (above & Hin & Hfile). apply list_elem_of_In in Hin.
  now rewrite (regular_file_above w above path' Hpath' Hin) in Hfile.
Qed.

Lemma makedirs_run path w :
  path ∉ dirs w -> existsb (regular_file w) (parents "" path) = false ->
  makedirs path w =
    (Ok (), World (cwd w) (dirs w ∪ {[path]} ∪ list_to_set (parents "" path))
                  (files w) (namespace w) (trace w)).
Proof.
  intros Hp Hfiles. unfold makedirs.
  rewrite bool_decide_eq_false_2 by done. now rewrite Hfiles.
Qed.

Lemma makedirs_not_a_directory path w :
  path ∉ dirs w -> existsb (regular_file w) (parents "" path) = true ->
  makedirs path w = (Raise (Exn OSError "Not a directory"), w).
Proof.
  intros Hp Hfiles. unfold makedirs.
  rewrite bool_decide_eq_false_2 by done. now rewrite Hfiles.
Qed.

Lemma get_job_folders_run (jobname : string) (w : world) :
  let path_job := path_join (path_join (cwd w) LOGS_FOLDERNAME) jobname in
  let path_job_logs := path_join path_job "logs" in
  let path_job_commands := path_join path_job "commands" in
  (raises (get_job_folders jobname w).1 LookupError
     <-> path_job_commands ∉ dirs w)
  /\ (path_job_commands ∉ dirs w ->
        get_job_folders jobname w =
          (Raise (Exn LookupError
             ("Batch UID (" ++ jobname ++ ") does not exist! Cannot resume.")),
           w))
  /\ (path_job_commands ∈ dirs w -> path_job_logs ∈ dirs w ->
        get_job_folders jobname w = (Ok (path_job_logs, path_job_commands), w))
  /\ (path_job_commands ∈ dirs w -> path_job_logs ∉ dirs w ->
        exists w',
          get_job_folders jobname w = (Ok (path_job_logs, path_job_commands), w')
          /\ path_job_logs ∈ dirs w' /\ dirs w ⊆ dirs w'
          /\ cwd w' = cwd w /\ namespace w' = namespace w
          /\ trace w' = trace w /\ files w' = files w).
Proof.
  intros path_job path_job_logs path_job_commands.
  unfold get_job_folders. io_step.
  fold path_job. fold path_job_logs. fold path_job_commands.
  destruct (decide (path_job_commands ∈ dirs w)) as [Hc|Hc].
  - rewrite (bool_decide_eq_true_2 _ Hc). simpl.
    destruct (decide (path_job_logs ∈ dirs w)) as [Hl|Hl].
    + rewrite (bool_decide_eq_true_2 _ Hl). simpl.
      repeat split; tauto.
    + rewrite (bool_decide_eq_false_2 _ Hl). simpl.
      rewrite (makedirs_run _ _ Hl)
        by (eapply no_file_above;
            [exact Hc|apply parents_logs_commands]).
      simpl. repeat split; try tauto.
      eexists. split; [reflexivity|]. simpl.
      repeat split; try reflexivity; set_solver.
  - rewrite (bool_decide_eq_false_2 _ Hc). simpl.
    repeat split; try tauto.
Qed.

(** [create_job_folders] fails in one case only: the commands folder is
    missing and a regular file stands where one of the directories above
    it should be.  Nothing is created then. *)
Lemma create_job_folders_run (jobname : string) (w : world) :
  if bool_decide (commands_path w jobname ∈ dirs w)
     || negb (existsb (regular_file w)
                (parents "" (commands_path w jobname)))
  then
    exists w',
      create_job_folders jobname w =
        (Ok (logs_path w jobname, commands_path w jobname), w')
      /\ commands_path w jobname ∈ dirs w'
      /\ logs_path w jobname ∈ dirs w'
      /\ dirs w ⊆ dirs w'
      /\ w' = with_dirs w (dirs w')
      /\ (commands_path w jobname ∈ dirs w -> logs_path w jobname ∈ dirs w ->
            w' = w)
  else
    create_job_folders jobname w = (Raise (Exn OSError "Not a directory"), w).
Proof.
  pose proof (parents_logs_commands (job_path w jobname)) as Hsame.
  fold (logs_path w jobname) in Hsame. fold (commands_path w jobname) in Hsame.
  unfold create_job_folders. io_step.
  fold (job_path w jobname). fold (logs_path w jobname).
  fold (commands_path w jobname).
  set (c := commands_path w jobname) in *.
  set (l := logs_path w jobname) in *.
  destruct (decide (c ∈ dirs w)) as [Hc|Hc].
  - rewrite (bool_decide_eq_true_2 _ Hc). simpl.
    destruct (decide (l ∈ dirs w)) as [Hl|Hl].
    + rewrite (bool_decide_eq_true_2 _ Hl). simpl.
      eexists. split; [reflexivity|]. destruct w. simpl in *.
      repeat split; set_solver.
    + rewrite (bool_decide_eq_false_2 _ Hl). simpl.
      rewrite (makedirs_run _ _ Hl) by (eapply no_file_above; eassumption).
      simpl. eexists. split; [reflexivity|]. destruct w. simpl in *.
      repeat split; set_solver.
  - rewrite (bool_decide_eq_false_2 _ Hc). simpl.
    destruct (existsb (regular_file w) (parents "" c)) eqn:Hfile; simpl.
    + now rewrite (makedirs_not_a_directory _ _ Hc Hfile).
    + rewrite (makedirs_run _ _ Hc Hfile). simpl.
      set (d1 := dirs w ∪ {[c]} ∪ list_to_set (parents "" c)).
      set (w1 := World (cwd w) d1 (files w) (namespace w) (trace w)).
      assert (c ∈ dirs w1) as Hc1 by (simpl; set_solver).
      destruct (decide (l ∈ d1)) as [Hl|Hl].
      * rewrite (bool_decide_eq_true_2 _ Hl). simpl.
        eexists. split; [reflexivity|]. destruct w. simpl in *.
        repeat split; set_solver.
      * rewrite (bool_decide_eq_false_2 _ Hl). simpl.
        rewrite (makedirs_run l w1 Hl)
          by (eapply no_file_above; eassumption).
        simpl. eexists. split; [reflexivity|]. destruct w. simpl in *.
        repeat split; set_solver.
Qed.

(** The folders of a launch, when they can be made; the calls made so
    far do not matter to them. *)
Lemma create_job_folders_ready (jobname : string) (w : world) calls paths :
  (create_job_folders jobname w).1 = Ok paths ->
  exists d,
    dirs w ⊆ d
    /\ logs_path w jobname ∈ d
    /\ commands_path w jobname ∈ d
    /\ create_job_folders jobname (after w calls) =
         (Ok (logs_path w jobname, commands_path w jobname),
          with_dirs (after w calls) d).
Proof.
  intros Hok. pose proof (create_job_folders_run jobname w) as Hrun.
  pose proof (create_job_folders_run jobname (after w calls)) as Hrun'.
  change (commands_path (after w calls) jobname)
    with (commands_path w jobname) in Hrun'.
  change (logs_path (after w calls) jobname)
    with (logs_path w jobname) in Hrun'.
  change (dirs (after w calls)) with (dirs w) in Hrun'.
  change (regular_file (after w calls)) with (regular_file w) in Hrun'.
  destruct (_ || _).
  - destruct Hrun' as (w' & Hrun' & Hc & Hl & Hsub & Hw' & _).
    exists (dirs w'). rewrite <- Hw'. auto.
  - rewrite Hrun in Hok. discriminate.
Qed.

(** ** Strings *)

Lemma append_cons x (a b : string) : String x a ++ b = String x (a ++ b).
Proof. reflexivity. Qed.

Lemma append_nil_l (a : string) : "" ++ a = a.
Proof. reflexivity. Qed.

Lemma length_append (a b : string) :
  String.length (a ++ b) = (String.length a + String.length b)%nat.
Proof.
  induction a as [|c a IH]; [reflexivity|].
  rewrite append_cons. simpl. now rewrite IH.
Qed.

Lemma append_assoc (a b c : string) : (a ++ b) ++ c = a ++ b ++ c.
Proof.
  induction a as [|x a IH]; [reflexivity|].
  rewrite !append_cons. now rewrite IH.
Qed.

Lemma append_nil_r (a : string) : a ++ "" = a.
Proof.
  induction a as [|x a IH]; [reflexivity|].
  rewrite append_cons. now rewrite IH.
Qed.

Lemma append_cancel_r (a b t : string) : a ++ t = b ++ t -> a = b.
Proof.
  revert b. induction a as [|x a IH]; intros [|y b] E;
    rewrite ?append_cons, ?append_nil_l in E.
  - reflexivity.
  - apply (f_equal String.length) in E. simpl in E.
    rewrite length_append in E. lia.
  - apply (f_equal String.length) in E. simpl in E.
    rewrite length_append in E. lia.
  - injection E as -> E. f_equal. now apply IH.
Qed.

Lemma length_substring_0 n (s : string) :
  String.length (substring 0 n s) = Nat.min n (String.length s).
Proof.
  revert n. induction s as [|c s IH]; intros [|n]; simpl; try reflexivity.
  now rewrite IH.
Qed.

Lemma str_Int_inj i j : str (Int i) = str (Int j) -> i = j.
Proof.
  simpl. intros E. apply DecimalZ.to_int_inj.
  pose proof (DecimalString.NilEmpty.isi (Z.to_int i)) as Hi.
  rewrite E, DecimalString.NilEmpty.isi in Hi. now injection Hi.
Qed.

Lemma path_join_relative a b :
  startswith b "/" = false ->
  path_join a b = (if String.eqb a "" || endswith a "/" then a else a ++ "/") ++ b.
Proof.
  intros Hb. unfold path_join. rewrite Hb.
  destruct (String.eqb a "" || endswith a "/"); [reflexivity|].
  now rewrite append_assoc.
Qed.

Lemma job_file_inj path i j : job_file path i = job_file path j -> i = j.
Proof.
  unfold job_file. rewrite !path_join_relative by reflexivity.
  intros E. apply String.app_inj in E. apply String.app_inj in E.
  apply append_cancel_r in E. now apply str_Int_inj.
Qed.

(** ** The job files *)

Lemma job_files_from path i groups f :
  f ∈ job_files path i groups -> exists k, i <= k /\ f = job_file path k.
Proof.
  revert i. induction groups as [|g groups IH]; intros i Hf; simpl in Hf.
  - set_solver.
  - apply elem_of_cons in Hf as [->|Hf].
    + exists i. split; [lia|reflexivity].
    + destruct (IH _ Hf) as (k & Hk & ->). exists k. split; [lia|reflexivity].
Qed.

Lemma job_files_NoDup path i groups : NoDup (job_files path i groups).
Proof.
  revert i. induction groups as [|g groups IH]; intros i; simpl.
  - constructor.
  - constructor; [|apply IH].
    intros Hin. apply job_files_from in Hin as (k & Hk & E).
    apply job_file_inj in E. lia.
Qed.

Lemma write_job_files_run path i groups acc w :
  write_job_files path i groups acc w =
    (Ok (acc ++ job_files path i groups)%list,
     after w (job_calls path i groups)).
Proof.
  revert i acc w. induction groups as [|g groups IH]; intros i acc w; simpl.
  - unfold mret, io_ret, after. rewrite !app_nil_r. now destruct w.
  - unfold mbind, io_bind, emit. simpl. rewrite IH. fold (job_file path i).
    unfold after. simpl. rewrite <- !app_assoc. reflexivity.
Qed.



(** ** The stages of [main] *)

Section stages.
Context `{Collaborators}.

Lemma emit_run e w : emit e w = (Ok (), after w [e]).
Proof. reflexivity. Qed.

Lemma add_redirects_from logs fuel (pre l : list string) :
  (length l <= fuel)%nat ->
  add_redirects fuel logs (length pre) (pre ++ l)%list =
    (pre ++ map (redirected logs) l)%list.
Proof.
  revert fuel pre. induction l as [|c l IH]; intros fuel pre Hfuel.
  - destruct fuel; simpl; [reflexivity|].
    rewrite (lookup_ge_None_2 (pre ++ [])) by (rewrite app_nil_r; lia).
    reflexivity.
  - destruct fuel as [|fuel]; simpl in Hfuel; [lia|]. simpl.
    rewrite list_lookup_middle by reflexivity.
    rewrite !alter_app_r_alt by lia. rewrite Nat.sub_diag. simpl.
    fold (redirected logs c).
    change (pre ++ redirected logs c :: l)%list
      with (pre ++ [redirected logs c] ++ l)%list.
    rewrite (app_assoc pre).
    replace (S (length pre)) with (length (pre ++ [redirected logs c]))
      by (rewrite length_app; simpl; lia).
    rewrite IH by lia. now rewrite <- app_assoc.
Qed.

Lemma add_redirects_map logs (commands : list string) :
  add_redirects (length commands) logs 0 commands =
    map (redirected logs) commands.
Proof. apply (add_redirects_from logs (length commands) []). lia. Qed.

Lemma job_folders_run args w calls :
  batch_ready args w ->
  exists d,
    dirs w ⊆ d
    /\ logs_path w (batch_jobname args) ∈ d
    /\ commands_path w (batch_jobname args) ∈ d
    /\ job_folders args (after w calls) =
         (Ok (logs_path w (batch_jobname args),
              commands_path w (batch_jobname args),
              initial_commands args),
          with_dirs (after w calls) d).
Proof.
  unfold batch_ready, job_folders, batch_jobname, initial_commands,
    launch_jobname, launch_commands.
  destruct (mode args) as [cl|uid]; intros Hready.
  - destruct Hready as [paths Hready].
    destruct (commandsFile args) as [f|];
      destruct (create_job_folders_ready _ w calls paths Hready)
        as (d & Hsub & Hl & Hc & Hrun);
      exists d; (split; [exact Hsub|]); (split; [exact Hl|]);
      (split; [exact Hc|]);
      unfold mbind, io_bind; rewrite Hrun; reflexivity.
  - destruct (get_job_folders_run uid (after w calls))
      as (_ & _ & Hboth & Hlogs).
    change (path_join (path_join (path_join (cwd (after w calls))
                                    LOGS_FOLDERNAME) uid) "logs")
      with (logs_path w uid) in Hboth, Hlogs.
    change (path_join (path_join (path_join (cwd (after w calls))
                                    LOGS_FOLDERNAME) uid) "commands")
      with (commands_path w uid) in Hboth, Hlogs.
    change (dirs (after w calls)) with (dirs w) in Hboth, Hlogs.
    destruct (decide (logs_path w uid ∈ dirs w)) as [Hl|Hl].
    + exists (dirs w). split; [set_solver|]. split; [exact Hl|].
      split; [exact Hready|].
      unfold mbind, io_bind. rewrite (Hboth Hready Hl). reflexivity.
    + destruct (Hlogs Hready Hl)
        as (w' & Hrun & Hin & Hsub & Hcwd & Hns & Htr & Hfiles).
      exists (dirs w'). split; [exact Hsub|]. split; [exact Hin|].
      split; [set_solver|].
      unfold mbind, io_bind. rewrite Hrun. simpl.
      unfold mret, io_ret, with_dirs.
      rewrite <- Hcwd, <- Hns, <- Htr, <- Hfiles. now destruct w'.
Qed.

Lemma worker_pool_direct args logs commands w :
  pool args = None -> worker_pool args logs commands w = (Ok commands, w).
Proof. intros Hp. unfold worker_pool. now rewrite Hp. Qed.

Lemma worker_pool_unbound args logs commands w p :
  pool args = Some p -> namespace w !! "qsub_directory" = None ->
  worker_pool args logs commands w =
    (Raise (Exn NameError "global name 'qsub_directory' is not defined"), w).
Proof.
  intros Hp Hns. unfold worker_pool. rewrite Hp.
  unfold mbind, io_bind, load_global. now rewrite Hns.
Qed.

(** The submissions: all accepted, or the first one refused. *)
Lemma launch_jobs_accepted qsub_filenames w :
  Forall accepted qsub_filenames ->
  launch_jobs qsub_filenames w = (Ok (), after w (launch_calls qsub_filenames)).
Proof.
  revert w. induction qsub_filenames as [|f fs IH]; intros w Hall; simpl.
  - unfold mret, io_ret, after. rewrite app_nil_r. now destruct w.
  - apply Forall_cons in Hall as [[output Hf] Hall].
    unfold mbind, io_bind, lift. rewrite !emit_run, Hf. simpl.
    rewrite IH by exact Hall.
    unfold after. simpl. now rewrite <- !app_assoc.
Qed.

Lemma launch_jobs_refused before f rest e w :
  Forall accepted before -> check_output ("qsub " ++ f) = Raise e ->
  launch_jobs (before ++ f :: rest) w =
    (Raise e,
     after w (launch_calls before ++ [subprocess_check_output ("qsub " ++ f)])).
Proof.
  intros Hall Hf. revert w.
  induction before as [|b before IH]; intros w; simpl.
  - unfold mbind, io_bind, lift. rewrite !emit_run, Hf. reflexivity.
  - apply Forall_cons in Hall as [[output Hb] Hall].
    unfold mbind, io_bind, lift. rewrite !emit_run, Hb. simpl.
    rewrite (IH Hall).
    unfold after. simpl. now rewrite <- !app_assoc.
Qed.

(** Whatever the scheduler answers, the submissions change nothing but
    the trace, to which they add calls of the shell and prints. *)
Lemma launch_jobs_frame qsub_filenames w :
  exists calls,
    (launch_jobs qsub_filenames w).2 = after w calls
    /\ Forall (λ e, match e with
                    | subprocess_check_output _ | print_ _ => True
                    | _ => False
                    end) calls.
Proof.
  revert w. induction qsub_filenames as [|f fs IH]; intros w; simpl.
  - exists []. split; [|constructor].
    unfold mret, io_ret, after. rewrite app_nil_r. now destruct w.
  - unfold mbind, io_bind, lift. rewrite !emit_run.
    destruct (check_output ("qsub " ++ f)) as [output|e]; simpl.
    + destruct (IH (after (after w [subprocess_check_output ("qsub " ++ f)])
                      [print_ output])) as (calls & Hcalls & Hall).
      destruct (launch_jobs fs _) as [r w']. simpl in *. subst w'.
      exists (subprocess_check_output ("qsub " ++ f) :: print_ output :: calls).
      split; [|repeat constructor; exact Hall].
      unfold after. simpl. now rewrite <- !app_assoc.
    + exists [subprocess_check_output ("qsub " ++ f)].
      split; [reflexivity|]. repeat constructor.
Qed.

Lemma added_groups_app tr1 tr2 :
  added_groups (tr1 ++ tr2) = (added_groups tr1 ++ added_groups tr2)%list.
Proof. apply omap_app. Qed.

Lemma added_groups_job_calls path i groups :
  added_groups (job_calls path i groups) = groups.
Proof.
  revert i. induction groups as [|g groups IH]; intros i; [reflexivity|].
  unfold added_groups in *. simpl. now rewrite IH.
Qed.

Lemma added_groups_launch_calls fs : added_groups (launch_calls fs) = [].
Proof. induction fs as [|f fs IH]; [reflexivity|]. exact IH. Qed.

Lemma submitted_app tr1 tr2 :
  submitted (tr1 ++ tr2) = (submitted tr1 ++ submitted tr2)%list.
Proof. apply omap_app. Qed.

Lemma submitted_job_calls path i groups :
  submitted (job_calls path i groups) = [].
Proof.
  revert i. induction groups as [|g groups IH]; intros i; [reflexivity|].
  unfold submitted in *. simpl. now rewrite IH.
Qed.

Lemma submitted_launch_calls fs :
  submitted (launch_calls fs) = map (λ f, "qsub " ++ f) fs.
Proof.
  induction fs as [|f fs IH]; [reflexivity|].
  simpl. f_equal. exact IH.
Qed.

End stages.

(** ** Runs of [main] *)

Section runs.
Context `{Collaborators}.

(** A run without [--pool], once its folders are there. *)
Lemma main_direct_run args w cl :
  pool args = None -> mode args = launch cl -> batch_ready args w ->
  exists d,
    dirs w ⊆ d
    /\ logs_path w (launch_jobname args cl) ∈ d
    /\ commands_path w (launch_jobname args cl) ∈ d
    /\ main args w =
         finish args (logs_path w (launch_jobname args cl))
                (commands_path w (launch_jobname args cl))
                (launch_commands args cl)
                (with_dirs
                   (after w [PBSGenerator_init (queueName args) (walltime args)])
                   d).
Proof.
  intros Hpool Hmode Hready.
  set (calls := [PBSGenerator_init (queueName args) (walltime args)]).
  destruct (job_folders_run args w calls Hready) as (d & Hd & Hl & Hc & Hrun).
  unfold batch_jobname, initial_commands in Hl, Hc, Hrun.
  rewrite Hmode in Hl, Hc, Hrun.
  exists d. split; [exact Hd|]. split; [exact Hl|]. split; [exact Hc|].
  unfold main. unfold mbind at 1. unfold io_bind at 1. rewrite emit_run.
  fold calls. unfold mbind at 1. unfold io_bind at 1. rewrite Hrun.
  unfold mbind at 1. unfold io_bind at 1.
  rewrite worker_pool_direct by exact Hpool.
  unfold load_fast, mret, io_ret, mbind, io_bind, lift, finish; simpl.
  rewrite add_redirects_map.
  destruct (job_groups _ _) as [groups|e]; simpl; [|reflexivity].
  rewrite write_job_files_run; simpl.
  now destruct (doNotLaunch args).
Qed.

(** A run with [--pool]: [qsub_directory] is not bound. *)
Lemma main_pool_unbound args w p :
  pool args = Some p ->
  namespace w !! "qsub_directory" = None ->
  batch_ready args w ->
  exists d,
    dirs w ⊆ d
    /\ main args w =
         (Raise (Exn NameError "global name 'qsub_directory' is not defined"),
          with_dirs
            (after w [PBSGenerator_init (queueName args) (walltime args)]) d).
Proof.
  intros Hpool Hns Hready.
  set (calls := [PBSGenerator_init (queueName args) (walltime args)]).
  destruct (job_folders_run args w calls Hready) as (d & Hd & _ & _ & Hrun).
  exists d. split; [exact Hd|].
  unfold main. unfold mbind at 1. unfold io_bind at 1. rewrite emit_run.
  fold calls. unfold mbind at 1. unfold io_bind at 1. rewrite Hrun.
  unfold mbind at 1. unfold io_bind at 1.
  now rewrite (worker_pool_unbound args _ _ _ p) by (exact Hpool || exact Hns).
Qed.

End runs.


(** ** Job names *)

Lemma substring_0_prefix n (s : string) :
  String.prefix (substring 0 n s) s = true.
Proof.
  revert n. induction s as [|c s IH]; intros [|n]; simpl; try reflexivity.
  destruct (ascii_dec c c); [apply IH|congruence].
Qed.

Lemma prefix_refl (s : string) : String.prefix s s = true.
Proof.
  induction s as [|c s IH]; simpl; [reflexivity|].
  destruct (ascii_dec c c); [exact IH|congruence].
Qed.

(** ** The matcher and the language of a pattern *)

Lemma append_eq_nil (a b : string) : a ++ b = "" -> a = "" /\ b = "".
Proof.
  destruct a as [|c a];
    [rewrite append_nil_l; now intros ->|rewrite append_cons; discriminate].
Qed.

Lemma lang_cat_inv r1 r2 s :
  lang (re.Cat r1 r2) s <->
  exists s1 s2, s = s1 ++ s2 /\ lang r1 s1 /\ lang r2 s2.
Proof.
  split.
  - inversion 1; subst. eauto.
  - intros (s1 & s2 & -> & H1 & H2). now constructor.
Qed.

Lemma lang_alt_inv r1 r2 s :
  lang (re.Alt r1 r2) s <-> lang r1 s \/ lang r2 s.
Proof.
  split.
  - inversion 1; subst; auto.
  - intros [Hs|Hs]; [now apply lang_alt_l|now apply lang_alt_r].
Qed.

Lemma lang_eps_inv s : lang re.Eps s <-> s = "".
Proof. split; [now inversion 1|intros ->; constructor]. Qed.

Lemma lang_opt_inv r s : lang (re.Opt r) s <-> lang r s \/ s = "".
Proof. unfold re.Opt. now rewrite lang_alt_inv, lang_eps_inv. Qed.

Lemma lang_lit_inv c s : lang (re.Lit c) s <-> s = String c "".
Proof. split; [now inversion 1|intros ->; constructor]. Qed.

Lemma nullable_lang r : re.nullable r = true <-> lang r "".
Proof.
  induction r as [| |c| |r1 IH1 r2 IH2|r1 IH1 r2 IH2|r IH]; simpl.
  - split; [discriminate|inversion 1].
  - split; [constructor|reflexivity].
  - split; [discriminate|inversion 1].
  - split; [discriminate|inversion 1].
  - rewrite andb_true_iff, IH1, IH2, lang_cat_inv. split.
    + intros [H1 H2]. now exists "", "".
    + intros (s1 & s2 & E & H1 & H2).
      symmetry in E. apply append_eq_nil in E as [-> ->]. now split.
  - now rewrite orb_true_iff, IH1, IH2, lang_alt_inv.
  - split; [constructor|reflexivity].
Qed.

(** A non-empty word of [r*] starts with a non-empty word of [r]. *)
Lemma lang_star_cons r c s :
  lang (re.Star r) (String c s) ->
  exists s1 s2, s = s1 ++ s2 /\ lang r (String c s1) /\ lang (re.Star r) s2.
Proof.
  intros Hs. remember (re.Star r) as r' eqn:Er. remember (String c s) as t eqn:Et.
  induction Hs as [| | | | | | |r0 s1 s2 H1 _ H2 IH2]; try discriminate.
  injection Er as ->. destruct s1 as [|c1 s1].
  - apply IH2; [reflexivity|exact Et].
  - rewrite append_cons in Et. injection Et as -> <-. eauto.
Qed.

Lemma deriv_lang c r s : lang (re.deriv c r) s <-> lang r (String c s).
Proof.
  revert s.
  induction r as [| |d| |r1 IH1 r2 IH2|r1 IH1 r2 IH2|r IH]; intros s; simpl.
  - split; inversion 1.
  - split; inversion 1.
  - destruct (Ascii.eqb_spec c d) as [->|Hcd].
    + rewrite lang_eps_inv, lang_lit_inv. split; [now intros ->|congruence].
    + rewrite lang_lit_inv. split; [inversion 1|congruence].
  - destruct (is_digit c) eqn:Hc.
    + rewrite lang_eps_inv. split; [intros ->; now constructor|now inversion 1].
    + split; [inversion 1|inversion 1; congruence].
  - assert (lang (re.Cat (re.deriv c r1) r2) s \/
            (re.nullable r1 = true /\ lang (re.deriv c r2) s)
            <-> lang (re.Cat r1 r2) (String c s)) as Hcat.
    { rewrite !lang_cat_inv, nullable_lang, IH2. split.
      - intros [(s1 & s2 & -> & H1 & H2)|[H1 H2]].
        + exists (String c s1), s2. rewrite append_cons, <- IH1. auto.
        + exists "", (String c s). auto.
      - intros (s1 & s2 & E & H1 & H2). destruct s1 as [|c1 s1].
        + right. rewrite append_nil_l in E. subst s2. auto.
        + left. rewrite append_cons in E. injection E as <- ->.
          exists s1, s2. rewrite IH1. auto. }
    rewrite <- Hcat. destruct (re.nullable r1).
    + rewrite lang_alt_inv. tauto.
    + split; [auto|intros [?|[? ?]]; [assumption|discriminate]].
  - now rewrite !lang_alt_inv, IH1, IH2.
  - rewrite lang_cat_inv. split.
    + intros (s1 & s2 & -> & H1 & H2). apply IH in H1.
      rewrite <- append_cons. now constructor.
    + intros Hs. apply lang_star_cons in Hs as (s1 & s2 & -> & H1 & H2).
      exists s1, s2. rewrite IH. auto.
Qed.

Lemma fullmatch_lang r s : re.fullmatch r s = true <-> lang r s.
Proof.
  revert r. induction s as [|c s IH]; intros r; simpl.
  - apply nullable_lang.
  - now rewrite IH, deriv_lang.
Qed.


Lemma only_append P (a b : string) : only P (a ++ b) = only P a && only P b.
Proof.
  induction a as [|c a IH]; [reflexivity|].
  rewrite append_cons. simpl. now rewrite IH, andb_assoc.
Qed.

Lemma only_impl (P Q : ascii -> bool) (s : string) :
  (forall c, P c = true -> Q c = true) -> only P s = true -> only Q s = true.
Proof.
  intros HPQ. induction s as [|c s IH]; simpl; [reflexivity|].
  rewrite !andb_true_iff. intros [Hc Hs]. auto.
Qed.

Lemma lang_digits s : lang (re.Star re.Digit) s <-> all_digits s = true.
Proof.
  split.
  - intros Hs. remember (re.Star re.Digit) as r eqn:Er.
    induction Hs as [| | | | | | |r0 s1 s2 H1 _ H2 IH2]; try discriminate.
    + reflexivity.
    + injection Er as ->. inversion H1 as [| |c Hc| | | | |]; subst.
      unfold all_digits in *. rewrite only_append. simpl.
      rewrite IH2 by reflexivity. now rewrite Hc.
  - induction s as [|c s IH]; [constructor|].
    unfold all_digits. simpl. rewrite andb_true_iff. intros [Hc Hs].
    change (String c s) with (String c "" ++ s).
    constructor; [now constructor|now apply IH].
Qed.

Lemma lang_field_colon s :
  lang (re.Cat (re.Star re.Digit) (re.Lit ":")) s <->
  exists f, all_digits f = true /\ s = f ++ ":".
Proof.
  rewrite lang_cat_inv. split.
  - intros (f & x & -> & Hf & Hx). apply lang_lit_inv in Hx as ->.
    apply lang_digits in Hf. eauto.
  - intros (f & Hf & ->). exists f, ":".
    rewrite lang_digits, lang_lit_inv. auto.
Qed.

(** The pattern denotes one to four runs of digits, possibly empty,
    separated by colons. *)
Lemma lang_TIME_REGEX s :
  lang utils.TIME_REGEX s <->
  exists fields,
    (1 <= length fields <= 4)%nat
    /\ Forall (λ f, all_digits f = true) fields
    /\ s = String.concat ":" fields.
Proof.
  unfold utils.TIME_REGEX, re.Group. split.
  - intros Hs.
    apply lang_cat_inv in Hs as (c & f4 & -> & Hc & H4).
    apply lang_digits in H4.
    apply lang_opt_inv in Hc as [Hc| ->].
    2: { exists [f4]. simpl. repeat split; auto; lia. }
    apply lang_cat_inv in Hc as (b & x3 & -> & Hb & H3).
    apply lang_field_colon in H3 as (f3 & H3 & ->).
    apply lang_opt_inv in Hb as [Hb| ->].
    2: { exists [f3; f4]. simpl. rewrite append_nil_l, !append_assoc.
         repeat split; auto; lia. }
    apply lang_cat_inv in Hb as (a & x2 & -> & Ha & H2).
    apply lang_field_colon in H2 as (f2 & H2 & ->).
    apply lang_opt_inv in Ha as [Ha| ->].
    2: { exists [f2; f3; f4]. simpl. rewrite append_nil_l, !append_assoc.
         repeat split; auto; lia. }
    apply lang_field_colon in Ha as (f1 & H1 & ->).
    exists [f1; f2; f3; f4]. simpl. rewrite !append_assoc.
    repeat split; auto; lia.
  - intros (fields & Hlen & Hdigits & ->).
    destruct fields as [|f1 [|f2 [|f3 [|f4 [|f5 rest]]]]];
      simpl in Hlen; try lia;
      repeat match goal with
             | H : Forall _ (_ :: _) |- _ =>
                 apply Forall_cons in H as [? H]
             end; simpl.
    + replace f1 with ("" ++ f1) by apply append_nil_l.
      constructor; [|now apply lang_digits].
      apply lang_opt_inv. now right.
    + replace (f1 ++ ":" ++ f2) with (("" ++ (f1 ++ ":")) ++ f2)
        by now rewrite append_nil_l, append_assoc.
      constructor; [|now apply lang_digits].
      apply lang_opt_inv. left.
      constructor; [|apply lang_field_colon; eauto].
      apply lang_opt_inv. now right.
    + replace (f1 ++ ":" ++ f2 ++ ":" ++ f3)
        with ((("" ++ (f1 ++ ":")) ++ (f2 ++ ":")) ++ f3)
        by now rewrite append_nil_l, !append_assoc.
      constructor; [|now apply lang_digits].
      apply lang_opt_inv. left.
      constructor; [|apply lang_field_colon; eauto].
      apply lang_opt_inv. left.
      constructor; [|apply lang_field_colon; eauto].
      apply lang_opt_inv. now right.
    + replace (f1 ++ ":" ++ f2 ++ ":" ++ f3 ++ ":" ++ f4)
        with ((((f1 ++ ":") ++ (f2 ++ ":")) ++ (f3 ++ ":")) ++ f4)
        by now rewrite !append_assoc.
      constructor; [|now apply lang_digits].
      apply lang_opt_inv. left.
      constructor; [|apply lang_field_colon; eauto].
      apply lang_opt_inv. left.
      constructor; [|apply lang_field_colon; eauto].
      apply lang_opt_inv. left. apply lang_field_colon; eauto.
Qed.

(** ** Splitting at colons *)

Lemma split_lacks sep (f : string) : lacks sep f = true -> split sep f = [f].
Proof.
  unfold lacks. induction f as [|c f IH]; simpl; [reflexivity|].
  rewrite andb_true_iff, negb_true_iff. intros [Hc Hf].
  now rewrite Hc, IH.
Qed.

Lemma split_append sep (f rest : string) :
  lacks sep f = true ->
  split sep (f ++ String sep rest) = f :: split sep rest.
Proof.
  unfold lacks. induction f as [|c f IH]; simpl.
  - intros _. rewrite ?append_nil_l. simpl. now rewrite Ascii.eqb_refl.
  - rewrite andb_true_iff, negb_true_iff. intros [Hc Hf].
    rewrite ?append_cons. simpl. now rewrite Hc, IH.
Qed.

Lemma split_concat sep (fields : list string) :
  fields <> [] -> Forall (λ f, lacks sep f = true) fields ->
  split sep (String.concat (String sep "") fields) = fields.
Proof.
  induction fields as [|f fields IH]; [congruence|]. intros _ Hall.
  apply Forall_cons in Hall as [Hf Hall].
  destruct fields as [|g fields]; simpl.
  - now apply split_lacks.
  - change (f ++ String sep "" ++ ?x) with (f ++ String sep x).
    rewrite split_append by exact Hf. f_equal. now apply IH.
Qed.

(** ** Reading a field with [int] *)

Lemma digit_facts c :
  is_digit c = true ->
  is_space c = false /\ Ascii.eqb c ":" = false /\ Ascii.eqb c newline = false
  /\ c <> "-"%char /\ c <> "+"%char.
Proof.
  destruct c as [[] [] [] [] [] [] [] []]; vm_compute; intros Hc;
    try discriminate; repeat split; discriminate.
Qed.

Lemma digits_lack_colon (f : string) :
  all_digits f = true -> lacks ":" f = true.
Proof.
  apply only_impl. intros c Hc.
  destruct (digit_facts c Hc) as (_ & -> & _). reflexivity.
Qed.

Lemma lstrip_digits (f : string) : all_digits f = true -> lstrip f = f.
Proof.
  destruct f as [|c f]; [reflexivity|]. unfold all_digits. simpl.
  rewrite andb_true_iff. intros [Hc _].
  destruct (digit_facts c Hc) as (-> & _). reflexivity.
Qed.

Lemma rstrip_digits (f : string) : all_digits f = true -> rstrip f = f.
Proof.
  unfold all_digits. induction f as [|c f IH]; simpl; [reflexivity|].
  rewrite andb_true_iff. intros [Hc Hf]. rewrite IH by exact Hf.
  destruct (digit_facts c Hc) as (-> & _). now destruct f.
Qed.

Lemma rstrip_digits_newline (f : string) :
  all_digits f = true -> rstrip (f ++ String newline "") = f.
Proof.
  unfold all_digits. induction f as [|c f IH]; simpl; [reflexivity|].
  rewrite andb_true_iff. intros [Hc Hf].
  rewrite ?append_cons. simpl. rewrite IH by exact Hf.
  destruct (digit_facts c Hc) as (-> & _). now destruct f.
Qed.

Lemma strip_digits (f : string) : all_digits f = true -> strip f = f.
Proof.
  intros Hf. unfold strip. rewrite lstrip_digits by exact Hf.
  now apply rstrip_digits.
Qed.

Lemma strip_digits_newline (f : string) :
  all_digits f = true -> strip (f ++ String newline "") = f.
Proof.
  intros Hf. unfold strip. destruct f as [|c f]; [reflexivity|].
  rewrite append_cons.
  assert (is_digit c = true) as Hc
    by (unfold all_digits in Hf; simpl in Hf;
        now apply andb_true_iff in Hf as [? _]).
  simpl lstrip. destruct (digit_facts c Hc) as (-> & _).
  rewrite <- append_cons. now apply rstrip_digits_newline.
Qed.

Lemma digits_value_number acc (f : string) :
  all_digits f = true -> digits_value acc f = Some (digits_number acc f).
Proof.
  unfold all_digits. revert acc. induction f as [|c f IH]; intros acc; simpl;
    [reflexivity|].
  rewrite andb_true_iff. intros [-> Hf]. now apply IH.
Qed.

Lemma decimal_field (f : string) :
  time_field f -> decimal f = Some (field_value f).
Proof.
  intros [Hne Hf]. destruct f as [|c f]; [congruence|].
  unfold decimal. now apply digits_value_number.
Qed.

(** The sign cases of [int] do not apply to a literal that starts with a
    digit. *)
Lemma unsigned_literal c (t : string) :
  is_digit c = true ->
  match String c t with
  | String "-" d => Z.opp <$> decimal d
  | String "+" d => decimal d
  | _ => decimal (String c t)
  end = decimal (String c t).
Proof.
  destruct c as [[] [] [] [] [] [] [] []]; vm_compute is_digit; intros Hc;
    try discriminate; reflexivity.
Qed.

Lemma int_stripped (s f : string) :
  strip s = f -> time_field f -> int (Str s) = Ok (field_value f).
Proof.
  intros Hs Hf. unfold int. rewrite Hs.
  destruct f as [|c f]; [now destruct Hf|].
  assert (is_digit c = true) as Hc
    by (destruct Hf as [_ Hf]; unfold all_digits in Hf; simpl in Hf;
        now apply andb_true_iff in Hf as [? _]).
  rewrite (unsigned_literal c f Hc), (decimal_field _ Hf). reflexivity.
Qed.

Lemma int_field (f : string) :
  time_field f -> int (Str f) = Ok (field_value f).
Proof.
  intros Hf. apply int_stripped; [|exact Hf]. apply strip_digits, Hf.
Qed.

Lemma int_field_newline (f : string) :
  time_field f -> int (Str (f ++ String newline "")) = Ok (field_value f).
Proof.
  intros Hf. apply int_stripped; [|exact Hf]. apply strip_digits_newline, Hf.
Qed.

Lemma int_raises x e : int x = Raise e -> exn_cls e = ValueError.
Proof.
  destruct x as [z|s]; simpl; [discriminate|].
  match goal with |- context [match ?v with Some _ => _ | None => _ end] =>
    destruct v end; [discriminate|].
  now intros [= <-].
Qed.

Lemma int_digits_Ok (f : string) v :
  all_digits f = true -> int (Str f) = Ok v -> time_field f.
Proof.
  intros Hf Hv. split; [|exact Hf]. intros ->. discriminate.
Qed.

Lemma int_digits_newline_Ok (f : string) v :
  all_digits f = true -> int (Str (f ++ String newline "")) = Ok v ->
  time_field f.
Proof.
  intros Hf Hv. split; [|exact Hf]. intros ->. discriminate.
Qed.


(** ** [walltime_to_seconds] *)

Lemma before_final_newline_append (s : string) :
  re.before_final_newline (s ++ String newline "") = Some s.
Proof.
  induction s as [|c s IH]; [reflexivity|].
  rewrite append_cons. simpl. rewrite IH.
  destruct s; reflexivity.
Qed.

Lemma before_final_newline_Some (s s' : string) :
  re.before_final_newline s = Some s' -> s = s' ++ String newline "".
Proof.
  revert s'. induction s as [|c s IH]; intros s'; simpl; [discriminate|].
  destruct s as [|c' s].
  - destruct (Ascii.eqb_spec c newline) as [->|]; [|discriminate].
    now intros [= <-].
  - destruct (re.before_final_newline (String c' s)) as [t|] eqn:Et;
      [|discriminate].
    simpl. intros [= <-]. rewrite append_cons. f_equal. now apply IH.
Qed.

Lemma concat_cons sep f (l : list string) :
  l <> [] -> String.concat sep (f :: l) = f ++ sep ++ String.concat sep l.
Proof. destruct l; [congruence|reflexivity]. Qed.

Lemma newline_ended_cons f (l : list string) :
  l <> [] -> newline_ended (f :: l) = f :: newline_ended l.
Proof. destruct l; [congruence|reflexivity]. Qed.

Lemma length_newline_ended (fields : list string) :
  length (newline_ended fields) = length fields.
Proof.
  induction fields as [|f fields IH]; [reflexivity|].
  destruct fields as [|g fields]; [reflexivity|].
  rewrite newline_ended_cons by congruence.
  change (length (f :: ?l)) with (S (length l)). now rewrite IH.
Qed.

Lemma newline_ended_nonnil (fields : list string) :
  fields <> [] -> newline_ended fields <> [].
Proof.
  intros Hne E. apply (f_equal length) in E.
  rewrite length_newline_ended in E. destruct fields; simpl in E; congruence.
Qed.

Lemma concat_newline_ended (fields : list string) :
  fields <> [] ->
  String.concat ":" (newline_ended fields) =
    String.concat ":" fields ++ String newline "".
Proof.
  induction fields as [|f fields IH]; [congruence|]. intros _.
  destruct fields as [|g fields]; [reflexivity|].
  rewrite newline_ended_cons by congruence.
  rewrite !concat_cons by (try apply newline_ended_nonnil; congruence).
  rewrite IH by congruence. now rewrite !append_assoc.
Qed.

#[local] Arguments int : simpl never.

(** The computation after the pattern has matched, on fields that hold no
    colon and that [int] reads. *)
Lemma walltime_of_fields (fields : list string) (values : list Z) :
  (1 <= length fields <= 4)%nat ->
  Forall2 (λ g v, lacks ":" g = true /\ int (Str g) = Ok v) fields values ->
  re.match_ utils.TIME_REGEX (String.concat ":" fields) = true ->
  utils.walltime_to_seconds (String.concat ":" fields) = Ok (seconds_of values).
Proof.
  intros Hlen Hall Hmatch. unfold utils.walltime_to_seconds.
  rewrite Hmatch. simpl negb. cbv iota.
  rewrite (split_concat ":" fields).
  2: { intros ->. simpl in Hlen. lia. }
  2: { eapply Forall2_Forall_l; [exact Hall|].
       apply Forall_forall. now intros v _ g [? _]. }
  destruct Hall as [|g1 v1 gs vs [_ H1] Hall]; [simpl in Hlen; lia|].
  destruct Hall as [|g2 v2 gs vs [_ H2] Hall].
  { simpl. rewrite H1. reflexivity. }
  destruct Hall as [|g3 v3 gs vs [_ H3] Hall].
  { simpl. rewrite H1. simpl. rewrite H2. reflexivity. }
  destruct Hall as [|g4 v4 gs vs [_ H4] Hall].
  { simpl. rewrite H1. simpl. rewrite H2. simpl. rewrite H3. reflexivity. }
  destruct Hall as [|g5 v5 gs vs _ Hall]; [|simpl in Hlen; lia].
  simpl. rewrite H1. simpl. rewrite H2. simpl. rewrite H3. simpl.
  rewrite H4. reflexivity.
Qed.

Lemma walltime_fields_match (fields : list string) :
  (1 <= length fields <= 4)%nat ->
  Forall (λ f, all_digits f = true) fields ->
  re.fullmatch utils.TIME_REGEX (String.concat ":" fields) = true.
Proof.
  intros Hlen Hall. apply fullmatch_lang, lang_TIME_REGEX. eauto.
Qed.

(** A documented walltime gives its number of seconds. *)
Lemma walltime_to_seconds_fields (fields : list string) :
  walltime_fields fields ->
  utils.walltime_to_seconds (String.concat ":" fields) =
    Ok (walltime_seconds fields).
Proof.
  intros [Hlen Hall]. apply walltime_of_fields; [exact Hlen| |].
  - apply Forall2_fmap_r, Forall_Forall2_diag.
    eapply Forall_impl; [exact Hall|]. intros f Hf. split.
    + apply digits_lack_colon, Hf.
    + now apply int_field.
  - unfold re.match_. rewrite walltime_fields_match; [reflexivity|exact Hlen|].
    eapply Forall_impl; [exact Hall|]. now intros f [_ Hf].
Qed.

Lemma newline_ended_readable (fields : list string) :
  Forall time_field fields ->
  Forall2 (λ g v, lacks ":" g = true /\ int (Str g) = Ok v)
          (newline_ended fields) (map field_value fields).
Proof.
  induction fields as [|f fields IH]; intros Hall; [constructor|].
  apply Forall_cons in Hall as [Hf Hall].
  destruct fields as [|g fields].
  - constructor; [|constructor]. split.
    + unfold lacks. rewrite only_append.
      fold (lacks ":" f). rewrite digits_lack_colon by apply Hf. reflexivity.
    + now apply int_field_newline.
  - rewrite newline_ended_cons by congruence.
    constructor; [|now apply IH]. split.
    + apply digits_lack_colon, Hf.
    + now apply int_field.
Qed.

(** So does a documented walltime followed by one newline. *)
Lemma walltime_to_seconds_newline (fields : list string) :
  walltime_fields fields ->
  utils.walltime_to_seconds (String.concat ":" fields ++ String newline "") =
    Ok (walltime_seconds fields).
Proof.
  intros [Hlen Hall].
  assert (fields <> []) as Hne by (intros ->; simpl in Hlen; lia).
  rewrite <- concat_newline_ended by exact Hne.
  apply walltime_of_fields.
  - now rewrite length_newline_ended.
  - now apply newline_ended_readable.
  - rewrite concat_newline_ended by exact Hne. unfold re.match_.
    rewrite before_final_newline_append, walltime_fields_match;
      [apply orb_true_r|exact Hlen|].
    eapply Forall_impl; [exact Hall|]. now intros f [_ Hf].
Qed.

(** A documented walltime holds digits and colons only. *)
Lemma walltime_fields_chars (fields : list string) :
  Forall time_field fields ->
  only (λ c, is_digit c || Ascii.eqb c ":") (String.concat ":" fields) = true.
Proof.
  induction fields as [|f fields IH]; intros Hall; [reflexivity|].
  apply Forall_cons in Hall as [[_ Hf] Hall].
  assert (only (λ c, is_digit c || Ascii.eqb c ":") f = true) as Hf'
    by (eapply only_impl; [|exact Hf]; now intros c ->).
  destruct fields as [|g fields]; [exact Hf'|].
  rewrite concat_cons by congruence.
  rewrite !only_append, Hf', IH by exact Hall. reflexivity.
Qed.

Lemma newline_not_documented (s : string) (fields : list string) :
  walltime_fields fields ->
  s ++ String newline "" <> String.concat ":" fields.
Proof.
  intros [_ Hall] E. apply walltime_fields_chars in Hall.
  rewrite <- E, only_append in Hall.
  apply andb_true_iff in Hall as [_ Hnl]. discriminate.
Qed.

Lemma mapM_Ok_Forall {A B} (f : A -> result B) (l : list A) ys :
  mapM f l = Ok ys -> Forall (λ x, exists y, f x = Ok y) l.
Proof.
  revert ys. induction l as [|x l IH]; intros ys; simpl; [constructor|].
  unfold mbind, result_bind. destruct (f x) as [y|e] eqn:Ex; [|discriminate].
  destruct (mapM f l) as [k|e]; [|discriminate].
  intros _. constructor; eauto.
Qed.

Lemma mapM_int_raises (l : list object) e :
  mapM int l = Raise e -> exn_cls e = ValueError.
Proof.
  induction l as [|x l IH]; simpl; [discriminate|].
  unfold mbind, result_bind. destruct (int x) as [y|e'] eqn:Ex.
  - destruct (mapM int l) as [k|e']; [discriminate|].
    intros [= <-]. now apply IH.
  - intros [= <-]. now apply int_raises in Ex.
Qed.

Lemma pad_fields_suffix fuel (split : list object) :
  exists zeros, utils.pad_fields fuel split = (zeros ++ split)%list.
Proof.
  revert split. induction fuel as [|fuel IH]; intros split; simpl.
  - now exists [].
  - destruct (len split <? 4); [|now exists []].
    destruct (IH (Int 0 :: split)) as [zeros ->].
    exists (zeros ++ [Int 0])%list. now rewrite <- app_assoc.
Qed.

Lemma readable_fields (fields : list string) :
  Forall (λ f, all_digits f = true) fields ->
  Forall (λ x, exists y, int x = Ok y) (Str <$> fields) ->
  Forall time_field fields.
Proof.
  induction fields as [|f fields IH]; intros Hdig Hint; [constructor|].
  apply Forall_cons in Hdig as [Hf Hdig].
  rewrite fmap_cons in Hint. apply Forall_cons in Hint as [[y Hy] Hint].
  constructor; [now apply (int_digits_Ok f y)|now apply IH].
Qed.

Lemma readable_newline_ended (fields : list string) :
  Forall (λ f, all_digits f = true) fields ->
  Forall (λ x, exists y, int x = Ok y) (Str <$> newline_ended fields) ->
  Forall time_field fields.
Proof.
  induction fields as [|f fields IH]; intros Hdig Hint; [constructor|].
  apply Forall_cons in Hdig as [Hf Hdig].
  destruct fields as [|g fields].
  - simpl in Hint. apply Forall_cons in Hint as [[y Hy] _].
    constructor; [now apply (int_digits_newline_Ok f y)|constructor].
  - rewrite newline_ended_cons, fmap_cons in Hint by congruence.
    apply Forall_cons in Hint as [[y Hy] Hint].
    constructor; [now apply (int_digits_Ok f y)|now apply IH].
Qed.

Lemma newline_ended_lacks (fields : list string) :
  Forall (λ f, all_digits f = true) fields ->
  Forall (λ f, lacks ":" f = true) (newline_ended fields).
Proof.
  induction fields as [|f fields IH]; intros Hdig; [constructor|].
  apply Forall_cons in Hdig as [Hf Hdig].
  destruct fields as [|g fields].
  - constructor; [|constructor]. unfold lacks. rewrite only_append.
    fold (lacks ":" f). now rewrite digits_lack_colon.
  - rewrite newline_ended_cons by congruence.
    constructor; [now apply digits_lack_colon|now apply IH].
Qed.

(** Whatever [walltime_to_seconds] returns is the number of seconds of a
    documented walltime, which the argument spells, with or without one
    newline after it. *)
Lemma walltime_to_seconds_Ok (s : string) v :
  utils.walltime_to_seconds s = Ok v ->
  exists fields,
    walltime_fields fields
    /\ (s = String.concat ":" fields
        \/ s = String.concat ":" fields ++ String newline "")
    /\ v = walltime_seconds fields.
Proof.
  intros Hv. pose proof Hv as Hrun. unfold utils.walltime_to_seconds in Hrun.
  destruct (re.match_ utils.TIME_REGEX s) eqn:Hm; [|discriminate].
  simpl negb in Hrun. cbv iota in Hrun. unfold mbind, result_bind in Hrun.
  destruct (mapM int _) as [values|e] eqn:Hmap in Hrun; [|discriminate].
  clear Hrun. apply mapM_Ok_Forall in Hmap.
  destruct (pad_fields_suffix 4 (Str <$> split ":" s)) as [zeros Hpad].
  rewrite Hpad in Hmap. apply Forall_app in Hmap as [_ Hmap].
  unfold re.match_ in Hm. apply orb_true_iff in Hm as [Hm|Hm].
  - apply fullmatch_lang, lang_TIME_REGEX in Hm as (fields & Hlen & Hdig & ->).
    assert (fields <> []) as Hne by (intros ->; simpl in Hlen; lia).
    rewrite (split_concat ":" fields) in Hmap; [|exact Hne|].
    2: { eapply Forall_impl; [exact Hdig|]. apply digits_lack_colon. }
    assert (walltime_fields fields) as Hfields
      by (split; [exact Hlen|now apply readable_fields]).
    exists fields. split; [exact Hfields|]. split; [now left|].
    rewrite (walltime_to_seconds_fields fields Hfields) in Hv.
    now injection Hv.
  - destruct (re.before_final_newline s) as [s'|] eqn:Es; [|discriminate].
    apply before_final_newline_Some in Es as ->.
    apply fullmatch_lang, lang_TIME_REGEX in Hm as (fields & Hlen & Hdig & ->).
    assert (fields <> []) as Hne by (intros ->; simpl in Hlen; lia).
    rewrite <- concat_newline_ended in Hmap by exact Hne.
    rewrite (split_concat ":" (newline_ended fields)) in Hmap.
    2: { now apply newline_ended_nonnil. }
    2: { now apply newline_ended_lacks. }
    assert (walltime_fields fields) as Hfields
      by (split; [exact Hlen|now apply readable_newline_ended]).
    exists fields. split; [exact Hfields|]. split; [now right|].
    rewrite (walltime_to_seconds_newline fields Hfields) in Hv.
    now injection Hv.
Qed.

(** The only exception [walltime_to_seconds] raises is [ValueError]. *)
Lemma walltime_to_seconds_raises (s : string) e :
  utils.walltime_to_seconds s = Raise e -> exn_cls e = ValueError.
Proof.
  unfold utils.walltime_to_seconds.
  destruct (re.match_ utils.TIME_REGEX s); simpl negb; cbv iota;
    [|now intros [= <-]].
  unfold mbind, result_bind.
  destruct (mapM int _) as [values|e'] eqn:Hmap.
  - destruct values as [|d [|h [|m [|x [|y rest]]]]];
      try (now intros [= <-]); discriminate.
  - intros [= <-]. now apply mapM_int_raises in Hmap.
Qed.

(** A string that is neither a documented walltime nor one followed by a
    newline is refused with [ValueError]. *)
Lemma walltime_to_seconds_refuses (s : string) :
  (forall fields, walltime_fields fields ->
     s <> String.concat ":" fields
     /\ s <> String.concat ":" fields ++ String newline "") ->
  raises (utils.walltime_to_seconds s) ValueError.
Proof.
  intros Hnot. destruct (utils.walltime_to_seconds s) as [v|e] eqn:Hrun.
  - apply walltime_to_seconds_Ok in Hrun as (fields & Hf & [E|E] & _);
      destruct (Hnot fields Hf); contradiction.
  - simpl. now apply walltime_to_seconds_raises in Hrun.
Qed.

(** * Main results *)

(** C1: the code does not do this.  With at least one command and a
    positive number of commands per node, [main] takes [nb_jobs =
    ceil(nb_commands / nbCommandsPerNode)], then [nb_commands_per_file =
    ceil(nb_commands / nb_jobs)], and [utils.chunks] cuts [nb_jobs] groups
    of that fixed size: every group before the last holds
    [nb_commands_per_file] commands and the last holds what is left.  No
    group is larger than [nb_commands_per_file], but the sizes are within
    one of each other only when at most one command is missing from the
    last group: seven commands at three per node give groups of 3, 3
    and 1. *)
Theorem job_groups_uneven `{Collaborators} (commands : list string)
    (nbCommandsPerNode : Z) :
  1 <= len commands -> exact_length commands ->
  0 < nbCommandsPerNode -> float_fits nbCommandsPerNode ->
  exists nb_jobs nb_commands_per_file groups,
    job_groups commands nbCommandsPerNode = Ok groups
    /\ (nb_jobs - 1) * nbCommandsPerNode < len commands
       <= nb_jobs * nbCommandsPerNode
    /\ (nb_commands_per_file - 1) * nb_jobs < len commands
       <= nb_commands_per_file * nb_jobs
    /\ len groups = nb_jobs
    /\ (forall (i : nat) g, groups !! i = Some g ->
          len g = if Z.of_nat i + 1 <? nb_jobs then nb_commands_per_file
                  else len commands - (nb_jobs - 1) * nb_commands_per_file)
    /\ ((forall g1 g2, g1 ∈ groups -> g2 ∈ groups ->
           Z.abs (len g1 - len g2) <= 1)
        <-> nb_jobs * nb_commands_per_file - len commands <= 1).
Proof.
  intros Hlen Hexact Hn Hfit.
  destruct (job_groups_run commands nbCommandsPerNode Hlen Hexact Hn Hfit)
    as (J & P & groups & _ & HJ & _ & HP & Hgroups & _ & Hcount & Hsize).
  exists J, P, groups.
  assert (forall (i : nat) g, groups !! i = Some g ->
            len g = if Z.of_nat i + 1 <? J then P
                    else len commands - (J - 1) * P) as Hsizes.
  { intros i g Hi. destruct (Hsize i g Hi) as (_ & Hfull & Hlast).
    rewrite Hcount in Hfull, Hlast.
    pose proof (lookup_lt_Some _ _ _ Hi) as Hi'. unfold len in Hcount.
    destruct (Z.ltb_spec (Z.of_nat i + 1) J); [auto|]. apply Hlast. lia. }
  repeat split; try tauto; try lia.
  - intros Hbalanced.
    destruct (decide (J = 1)) as [->|HJ1]; [lia|].
    assert (exists g1, groups !! 0%nat = Some g1) as [g1 Hg1]
      by (apply lookup_lt_is_Some; unfold len in Hcount; lia).
    assert (exists g2, groups !! Z.to_nat (J - 1) = Some g2) as [g2 Hg2]
      by (apply lookup_lt_is_Some; unfold len in Hcount; lia).
    pose proof (Hsizes _ _ Hg1) as H1. pose proof (Hsizes _ _ Hg2) as H2.
    destruct (Z.ltb_spec (Z.of_nat 0 + 1) J); [|lia].
    destruct (Z.ltb_spec (Z.of_nat (Z.to_nat (J - 1)) + 1) J); [lia|].
    specialize (Hbalanced g1 g2 (list_elem_of_lookup_2 _ _ _ Hg1)
                  (list_elem_of_lookup_2 _ _ _ Hg2)).
    lia.
  - intros Hmissing g1 g2 Hg1 Hg2.
    apply list_elem_of_lookup in Hg1 as [i1 Hi1].
    apply list_elem_of_lookup in Hg2 as [i2 Hi2].
    rewrite (Hsizes _ _ Hi1), (Hsizes _ _ Hi2).
    destruct (Z.ltb_spec (Z.of_nat i1 + 1) J),
             (Z.ltb_spec (Z.of_nat i2 + 1) J); lia.
Qed.

Lemma job_groups_uneven_witness :
  exists groups,
    @job_groups sample_collaborators
      ["c1"; "c2"; "c3"; "c4"; "c5"; "c6"; "c7"] 3 = Ok groups
    /\ len groups = 3
    /\ (forall (i : nat) g, groups !! i = Some g ->
          len g = if Z.of_nat i + 1 <? 3 then 3 else 1)
    /\ ~ (forall g1 g2, g1 ∈ groups -> g2 ∈ groups ->
            Z.abs (len g1 - len g2) <= 1).
Proof.
  destruct (@job_groups_uneven sample_collaborators
              ["c1"; "c2"; "c3"; "c4"; "c5"; "c6"; "c7"] 3)
    as (J & P & groups & Hgroups & HJ & HP & Hcount & Hsizes & Hbalanced).
  - unfold len; simpl; lia.
  - unfold exact_length. rewrite exact_limit_eq. unfold len; simpl; lia.
  - lia.
  - unfold float_fits. pose proof exact_below_float.
    rewrite exact_limit_eq in *. lia.
  - assert (J = 3) as -> by (unfold len in HJ; simpl in HJ; lia).
    assert (P = 3) as -> by (unfold len in HP; simpl in HP; lia).
    exists groups. split; [exact Hgroups|]. split; [exact Hcount|].
    split; [exact Hsizes|].
    rewrite Hbalanced. unfold len; simpl; lia.
Defined.

(** C2. For every sequence and every chunk size [n > 0], [chunks] returns
    normally, and concatenating its groups in order gives back the
    sequence: nothing reordered, added or dropped. *)
Theorem chunks_concat {A} (sequence : list A) (n : Z) :
  0 < n ->
  exists groups,
    utils.chunks sequence n = Ok groups /\ concat groups = sequence.
Proof. apply chunks_concat_eq. Qed.

Lemma chunks_concat_witness :
  exists groups,
    utils.chunks ["echo a"; "echo b"; "echo c"] 2 = Ok groups
    /\ concat groups = ["echo a"; "echo b"; "echo c"].
Proof. apply (chunks_concat ["echo a"; "echo b"; "echo c"] 2). lia. Defined.

(** C3: the code does not do this.  With [--pool p], line 61 reads
    [qsub_directory], which nothing binds, before any worker command is
    made: every such run, launch or resume, ends in [NameError], and the
    script builder is handed no group at all, not [p] groups; no job file
    is submitted either. *)
Theorem pool_no_job_groups `{Collaborators} (args : Namespace) (w : world)
    (p : Z) :
  pool args = Some p -> namespace w !! "qsub_directory" = None ->
  batch_ready args w ->
  raises (main args w).1 NameError
  /\ added_groups (trace (main args w).2) = added_groups (trace w)
  /\ submitted (trace (main args w).2) = submitted (trace w).
Proof.
  intros Hpool Hns Hready.
  destruct (main_pool_unbound args w p Hpool Hns Hready) as (d & _ & ->).
  split; [reflexivity|]. simpl.
  rewrite added_groups_app, submitted_app. simpl.
  now rewrite !app_nil_r.
Qed.

Lemma pool_no_job_groups_witness :
  raises (@main sample_collaborators (sample_args three_echoes 1 (Some 2))
            fresh_world).1 NameError
  /\ added_groups
       (trace (@main sample_collaborators
                 (sample_args three_echoes 1 (Some 2)) fresh_world).2) = [].
Proof.
  destruct (@pool_no_job_groups sample_collaborators
              (sample_args three_echoes 1 (Some 2)) fresh_world 2)
    as (Hraises & Hadded & _).
  - reflexivity.
  - reflexivity.
  - eexists. vm_compute. reflexivity.
  - split; [exact Hraises|exact Hadded].
Defined.

(** C4: the code does not do this.  With no command at all, [main]
    computes [nb_jobs = 0] and then divides by it: a run that gets its
    folders ends in [ZeroDivisionError] at line 82, for every number of
    commands per node that [float] takes (for the others it ends in the
    [OverflowError] of line 81), before the script builder is given
    anything. *)
Theorem main_no_commands `{Collaborators} (args : Namespace) (w : world)
    (commandAndOptions : list string) :
  pool args = None -> mode args = launch commandAndOptions ->
  launch_commands args commandAndOptions = [] ->
  batch_ready args w ->
  raises (main args w).1
    (if float_limit <=? Z.abs (nbCommandsPerNode args)
     then OverflowError else ZeroDivisionError)
  /\ trace (main args w).2 =
       (trace w ++ [PBSGenerator_init (queueName args) (walltime args)])%list.
Proof.
  intros Hpool Hmode Hnone Hready.
  destruct (main_direct_run args w commandAndOptions Hpool Hmode Hready)
    as (d & _ & _ & _ & ->).
  rewrite Hnone. unfold finish, job_groups, ceil_div.
  change (len (map _ [])) with 0.
  destruct (Z.leb_spec float_limit (Z.abs (nbCommandsPerNode args)));
    [split; reflexivity|].
  destruct (Z.eqb_spec (nbCommandsPerNode args) 0) as [E|E];
    [split; reflexivity|].
  change (Z.abs 0) with 0.
  destruct (Z.ltb_spec 0 exact_limit) as [_|Hneg];
    [|rewrite exact_limit_eq in Hneg; lia].
  change (- 0) with 0. rewrite Z.div_0_l by exact E.
  cbn [mbind result_bind Z.opp].
  destruct (Z.leb_spec float_limit (Z.abs 0)) as [Hbig|_];
    [pose proof exact_below_float; rewrite exact_limit_eq in *; lia|].
  split; reflexivity.
Qed.

Lemma main_no_commands_witness :
  raises (@main sample_collaborators (sample_args (File "cmds" "") 2 None)
            fresh_world).1 ZeroDivisionError.
Proof.
  apply (@main_no_commands sample_collaborators
           (sample_args (File "cmds" "") 2 None) fresh_world []);
    try reflexivity.
  eexists. vm_compute. reflexivity.
Defined.

(** C5: the code does not do this.  With [--pool], [main] names the queue
    file by joining [qsub_directory] and [commands.txt], but nothing binds
    [qsub_directory]: the run ends in [NameError] at line 61, and no
    command manager is built on any file. *)
Theorem pool_queue_file_unbound `{Collaborators} (args : Namespace)
    (w : world) (p : Z) :
  pool args = Some p -> namespace w !! "qsub_directory" = None ->
  batch_ready args w ->
  (main args w).1 =
    Raise (Exn NameError "global name 'qsub_directory' is not defined")
  /\ trace (main args w).2 =
       (trace w ++ [PBSGenerator_init (queueName args) (walltime args)])%list.
Proof.
  intros Hpool Hns Hready.
  destruct (main_pool_unbound args w p Hpool Hns Hready) as (d & _ & ->).
  split; reflexivity.
Qed.

Lemma pool_queue_file_unbound_witness :
  (@main sample_collaborators (sample_args three_echoes 2 (Some 2))
     fresh_world).1 =
    Raise (Exn NameError "global name 'qsub_directory' is not defined").
Proof.
  apply (@pool_queue_file_unbound sample_collaborators
           (sample_args three_echoes 2 (Some 2)) fresh_world 2).
  - reflexivity.
  - reflexivity.
  - eexists. vm_compute. reflexivity.
Defined.

(** C6 (amended).  A commands directory that already exists does not
    stop a launch: [create_job_folders] then reports no error, leaves the
    directory in place, creates the logs directory if it is missing, and
    returns both paths. *)
Theorem create_job_folders_existing (jobname : string) (w : world) :
  commands_path w jobname ∈ dirs w ->
  exists w',
    create_job_folders jobname w =
      (Ok (logs_path w jobname, commands_path w jobname), w')
    /\ logs_path w jobname ∈ dirs w'
    /\ dirs w ⊆ dirs w'
    /\ w' = with_dirs w (dirs w')
    /\ (logs_path w jobname ∈ dirs w -> w' = w).
Proof.
  intros Hc. pose proof (create_job_folders_run jobname w) as Hrun.
  rewrite (bool_decide_eq_true_2 _ Hc) in Hrun. simpl in Hrun.
  destruct Hrun as (w' & Hrun & _ & Hl & Hsub & Hw' & Hsame).
  exists w'. auto 6.
Qed.

Lemma create_job_folders_existing_witness :
  let w := World "/home/u"
             {[ "/home/u"; "/home/u/SMART_DISPATCH_LOGS";
                "/home/u/SMART_DISPATCH_LOGS/exp";
                "/home/u/SMART_DISPATCH_LOGS/exp/commands" ]} ∅ ∅ [] in
  exists w',
    create_job_folders "exp" w =
      (Ok ("/home/u/SMART_DISPATCH_LOGS/exp/logs",
           "/home/u/SMART_DISPATCH_LOGS/exp/commands"), w')
    /\ "/home/u/SMART_DISPATCH_LOGS/exp/logs" ∈ dirs w'.
Proof.
  intros w.
  destruct (create_job_folders_existing "exp" w) as (w' & Hrun & Hl & _).
  - vm_compute. set_solver.
  - exists w'. split; [exact Hrun|exact Hl].
Defined.

(** C6 as stated fails: a launch over a commands directory that already
    exists goes through and reports no error. *)
Lemma create_job_folders_already_launched :
  let w := World "/home/u"
             {[ "/home/u"; "/home/u/SMART_DISPATCH_LOGS";
                "/home/u/SMART_DISPATCH_LOGS/exp";
                "/home/u/SMART_DISPATCH_LOGS/exp/commands" ]} ∅ ∅ [] in
  commands_path w "exp" ∈ dirs w
  /\ (create_job_folders "exp" w).1 =
       Ok ("/home/u/SMART_DISPATCH_LOGS/exp/logs",
           "/home/u/SMART_DISPATCH_LOGS/exp/commands").
Proof.
  split.
  - vm_compute. set_solver.
  - vm_compute. reflexivity.
Qed.

(** C7. [get_job_folders] raises [LookupError] exactly when the commands
    directory of the batch does not exist.  When it exists the call returns
    the two paths; an existing logs directory leaves the file system as it
    was, a missing one is created. *)
Theorem get_job_folders_resume (jobname : string) (w : world) :
  (raises (get_job_folders jobname w).1 LookupError
     <-> commands_path w jobname ∉ dirs w)
  /\ (commands_path w jobname ∉ dirs w ->
        get_job_folders jobname w =
          (Raise (Exn LookupError
             ("Batch UID (" ++ jobname ++ ") does not exist! Cannot resume.")),
           w))
  /\ (commands_path w jobname ∈ dirs w -> logs_path w jobname ∈ dirs w ->
        get_job_folders jobname w =
          (Ok (logs_path w jobname, commands_path w jobname), w))
  /\ (commands_path w jobname ∈ dirs w -> logs_path w jobname ∉ dirs w ->
        exists w',
          get_job_folders jobname w =
            (Ok (logs_path w jobname, commands_path w jobname), w')
          /\ logs_path w jobname ∈ dirs w' /\ dirs w ⊆ dirs w'
          /\ cwd w' = cwd w /\ namespace w' = namespace w
          /\ trace w' = trace w).
Proof.
  destruct (get_job_folders_run jobname w) as (Hiff & Hraise & Hboth & Hlogs).
  split; [exact Hiff|]. split; [exact Hraise|]. split; [exact Hboth|].
  intros Hc Hl.
  destruct (Hlogs Hc Hl) as (w' & Hrun & Hin & Hsub & Hcwd & Hns & Htr & _).
  exists w'. auto 6.
Qed.

(** C8. For the groups that chunking hands over, in their order, the
    script builder is called with [add_commands] on the group, then [save]
    on the job file of the group, then [clear_commands], once per group and
    with nothing in between; the job files are pairwise distinct, and they
    are the file names collected for submission. *)
Theorem write_job_files_calls (path_job_commands : string)
    (groups : list (list string)) (w : world) :
  write_job_files path_job_commands 0 groups [] w =
    (Ok (job_files path_job_commands 0 groups),
     after w (job_calls path_job_commands 0 groups))
  /\ job_calls path_job_commands 0 groups =
       concat (imap (λ i group,
                 [pbs_add_commands group;
                  pbs_save (job_file path_job_commands (Z.of_nat i));
                  pbs_clear_commands]) groups)
  /\ added_groups (job_calls path_job_commands 0 groups) = groups
  /\ NoDup (job_files path_job_commands 0 groups)
  /\ length (job_files path_job_commands 0 groups) = length groups.
Proof.
  split; [apply write_job_files_run|].
  split; [|split; [apply added_groups_job_calls|
                   split; [apply job_files_NoDup|]]].
  - enough (forall k : nat,
              job_calls path_job_commands (Z.of_nat k) groups =
                concat (imap (λ i group,
                  [pbs_add_commands group;
                   pbs_save (job_file path_job_commands (Z.of_nat (k + i)));
                   pbs_clear_commands]) groups)) as Hk by apply (Hk 0%nat).
    induction groups as [|g groups IH]; intros k; simpl; [reflexivity|].
    rewrite Nat.add_0_r. do 3 f_equal.
    replace (Z.of_nat k + 1) with (Z.of_nat (S k)) by lia.
    rewrite IH. f_equal. apply imap_ext. intros i x _. simpl.
    now replace (k + S i)%nat with (S (k + i)) by lia.
  - generalize 0.
    induction groups as [|g groups IH]; intros k; simpl; [reflexivity|].
    now rewrite IH.
Qed.

(** C9. When the string form of [job_id] has at most 63 characters,
    [jobname_generator] returns at most 64 characters: the start of
    [jobname] (all of it when that fits), an underscore, and the string
    form of [job_id]. *)
Theorem jobname_generator_cropped (jobname : string) (job_id : object) :
  slen (str job_id) <= 63 ->
  slen (utils.jobname_generator jobname job_id) <= 64
  /\ exists kept,
       utils.jobname_generator jobname job_id = kept ++ "_" ++ str job_id
       /\ String.prefix kept jobname = true
       /\ (slen jobname + slen (str job_id) <= 63 -> kept = jobname).
Proof.
  intros Hid. unfold utils.jobname_generator.
  destruct (Z.gtb_spec (slen jobname + slen (str job_id)) 63) as [Hlong|Hfit].
  - split.
    + unfold str_upto, slice_bound, slen in *.
      rewrite !length_append, length_substring_0.
      change (String.length "_") with 1%nat.
      destruct (Z.ltb_spec (63 - Z.of_nat (String.length (str job_id))) 0); lia.
    + exists (str_upto jobname (63 - slen (str job_id))).
      split; [reflexivity|]. split; [apply substring_0_prefix|lia].
  - split.
    + unfold slen in *. rewrite !length_append.
      change (String.length "_") with 1%nat. lia.
    + exists jobname. split; [reflexivity|]. split; [|reflexivity].
      apply prefix_refl.
Qed.

Lemma jobname_generator_cropped_witness :
  slen (utils.jobname_generator
          "a_job_name_that_is_far_too_long_for_the_scheduler_to_accept_as_it_is"
          (Int 12)) <= 64.
Proof.
  apply (jobname_generator_cropped
           "a_job_name_that_is_far_too_long_for_the_scheduler_to_accept_as_it_is"
           (Int 12)).
  vm_compute. discriminate.
Defined.

(** C10: the code does this for the documented walltimes only in one
    direction.  A walltime of one to four colon-separated non-empty digit
    fields gives [((D*24 + H)*60 + M)*60 + S]; but the same walltime
    followed by one newline, which is not of that form, is not refused
    with [ValueError]: the [$] of the pattern holds before a final
    newline and [int] strips it, so the call returns the same number. *)
Theorem walltime_to_seconds_accepts_newline (fields : list string) :
  walltime_fields fields ->
  utils.walltime_to_seconds (String.concat ":" fields) =
    Ok (walltime_seconds fields)
  /\ utils.walltime_to_seconds
       (String.concat ":" fields ++ String newline "") =
       Ok (walltime_seconds fields)
  /\ (forall fields',
        walltime_fields fields' ->
        String.concat ":" fields ++ String newline "" <>
          String.concat ":" fields').
Proof.
  intros Hfields. split; [now apply walltime_to_seconds_fields|].
  split; [now apply walltime_to_seconds_newline|].
  intros fields' Hfields'. now apply newline_not_documented.
Qed.

Lemma walltime_to_seconds_accepts_newline_witness :
  utils.walltime_to_seconds ("12" ++ String newline "") = Ok 12.
Proof.
  apply (walltime_to_seconds_accepts_newline ["12"]).
  split; [simpl; lia|]. repeat constructor. discriminate.
Defined.

(** * Further properties of the code *)

(** ** [utils.chunks] *)

(** X1. For [n > 0], [chunks] cuts [ceil(len(sequence) / n)] groups; the
    [j]-th is the slice [sequence[j*n : j*n + n]], it is never empty, and
    every group before the last holds exactly [n] items. *)
Theorem chunks_groups {A} (sequence : list A) (n : Z) :
  0 < n ->
  exists groups,
    utils.chunks sequence n = Ok groups
    /\ (len groups - 1) * n < len sequence <= len groups * n
    /\ (forall (j : nat) g, groups !! j = Some g ->
          g = slice sequence (Z.of_nat j * n) (Z.of_nat j * n + n)
          /\ 1 <= len g <= n
          /\ (Z.of_nat j + 1 < len groups -> len g = n)).
Proof.
  intros Hn.
  destruct (chunks_lookup sequence n Hn) as (groups & Hrun & Hlook).
  pose proof (ceiling_bounds (len sequence) n Hn) as Hq.
  pose proof (chunks_count sequence n groups _ Hn Hq Hlook) as Hcount.
  exists groups. split; [exact Hrun|]. split; [now rewrite Hcount|].
  intros j g Hg. rewrite Hlook in Hg.
  destruct (Z.ltb_spec (Z.of_nat j * n) (len sequence)); [|discriminate].
  injection Hg as <-. split; [reflexivity|].
  rewrite slice_len by lia. split; [lia|]. intros Hj. nia.
Qed.

Lemma chunks_groups_witness :
  utils.chunks [1; 2; 3; 4; 5; 6; 7] 3 = Ok [[1; 2; 3]; [4; 5; 6]; [7]].
Proof.
  destruct (chunks_groups [1; 2; 3; 4; 5; 6; 7] 3) as (groups & Hrun & _);
    [lia|].
  rewrite Hrun. vm_compute in Hrun. now injection Hrun as <-.
Defined.

Lemma chunks_nonpositive_run {A} (sequence : list A) (n : Z) :
  (n = 0 -> raises (utils.chunks sequence n) ValueError)
  /\ (n < 0 -> utils.chunks sequence n = Ok []).
Proof.
  split.
  - intros ->. reflexivity.
  - intros Hn. unfold utils.chunks, range.
    destruct (Z.eqb_spec n 0); [lia|].
    destruct (Z.ltb_spec 0 n); [lia|].
    replace (Z.to_nat (0 - len sequence)) with 0%nat
      by (unfold len; lia).
    reflexivity.
Qed.

(** X2. A chunk size of zero makes the first step of [chunks] raise
    [ValueError]; a negative one makes it yield no group at all, whatever
    the sequence holds. *)
Theorem chunks_nonpositive {A} (sequence : list A) (n : Z) :
  (n = 0 -> raises (utils.chunks sequence n) ValueError)
  /\ (n < 0 -> utils.chunks sequence n = Ok []).
Proof. apply chunks_nonpositive_run. Qed.

(** ** [utils.walltime_to_seconds] *)

Lemma digits_number_nonneg acc (f : string) :
  0 <= acc -> all_digits f = true -> 0 <= digits_number acc f.
Proof.
  unfold all_digits. revert acc. induction f as [|c f IH]; intros acc Hacc;
    simpl; [easy|].
  rewrite andb_true_iff. intros [Hc Hf]. apply IH; [|exact Hf].
  unfold is_digit in Hc. apply andb_true_iff in Hc as [Hlo _].
  apply Nat.leb_le in Hlo. unfold digit_value. lia.
Qed.

Lemma walltime_seconds_nonneg (fields : list string) :
  walltime_fields fields -> 0 <= walltime_seconds fields.
Proof.
  intros [Hlen Hall]. unfold walltime_seconds.
  assert (Forall (λ v, 0 <= v) (map field_value fields)) as Hpos.
  { apply Forall_fmap. eapply Forall_impl; [exact Hall|].
    intros f [_ Hf]. now apply digits_number_nonneg. }
  assert (length (map field_value fields) = length fields) as Hl
    by apply length_map.
  revert Hpos Hl. generalize (map field_value fields). intros vs Hpos Hl.
  unfold seconds_of.
  destruct vs as [|v1 [|v2 [|v3 [|v4 [|v5 vs]]]]]; simpl in Hl; try lia;
    repeat match goal with
           | H : Forall _ (_ :: _) |- _ => apply Forall_cons in H as [? H]
           end; simpl; lia.
Qed.

(** X3. Whenever [walltime_to_seconds] returns, its argument spells one to
    four colon-separated non-empty digit fields, alone or followed by one
    newline, and the value is [((D*24 + H)*60 + M)*60 + S] for these
    fields, the missing leading ones being zero; it is never negative. *)
Theorem walltime_to_seconds_returns (s : string) v :
  utils.walltime_to_seconds s = Ok v ->
  0 <= v
  /\ exists fields,
       walltime_fields fields
       /\ (s = String.concat ":" fields
           \/ s = String.concat ":" fields ++ String newline "")
       /\ v = walltime_seconds fields.
Proof.
  intros Hv.
  destruct (walltime_to_seconds_Ok s v Hv) as (fields & Hf & Hs & ->).
  split; [now apply walltime_seconds_nonneg|]. eauto.
Qed.

Lemma walltime_to_seconds_returns_witness : 0 <= 93784.
Proof. apply (walltime_to_seconds_returns "1:02:03:04" 93784). reflexivity. Defined.

(** X4. Whenever [walltime_to_seconds] raises, the exception is a
    [ValueError] and the argument is not a documented walltime: this
    covers the strings the pattern refuses and also those it lets through
    with an empty field, such as [1::2], which [int] refuses. *)
Theorem walltime_to_seconds_fails (s : string) e :
  utils.walltime_to_seconds s = Raise e ->
  exn_cls e = ValueError
  /\ forall fields, walltime_fields fields -> s <> String.concat ":" fields.
Proof.
  intros Hs. split; [now apply (walltime_to_seconds_raises s)|].
  intros fields Hf ->. rewrite walltime_to_seconds_fields in Hs by exact Hf.
  discriminate.
Qed.

Lemma walltime_to_seconds_fails_witness :
  exists e, utils.walltime_to_seconds "1::2" = Raise e /\ exn_cls e = ValueError.
Proof.
  eexists. split; [reflexivity|].
  eapply (walltime_to_seconds_fails "1::2"). reflexivity.
Defined.

(** ** [utils.jobname_generator] *)

Lemma string_of_uint_digits d :
  all_digits (DecimalString.NilEmpty.string_of_uint d) = true.
Proof.
  unfold all_digits.
  induction d as [|d IH|d IH|d IH|d IH|d IH|d IH|d IH|d IH|d IH|d IH];
    [reflexivity|..];
    cbn [DecimalString.NilEmpty.string_of_uint only]; rewrite IH; reflexivity.
Qed.

Lemma string_of_uint_lacks sep d :
  is_digit sep = false ->
  lacks sep (DecimalString.NilEmpty.string_of_uint d) = true.
Proof.
  intros Hsep. apply (only_impl is_digit); [|apply string_of_uint_digits].
  intros c Hc. apply negb_true_iff, Ascii.eqb_neq. intros ->. congruence.
Qed.

Lemma str_Int_lacks_underscore z : lacks "_" (str (Int z)) = true.
Proof.
  simpl. destruct (Z.to_int z) as [d|d]; simpl.
  - now apply string_of_uint_lacks.
  - unfold lacks. cbn [only].
    fold (lacks "_" (DecimalString.NilEmpty.string_of_uint d)).
    now rewrite string_of_uint_lacks.
Qed.

(** The text after the last separator determines both parts. *)
Lemma last_separator sep (a b d1 d2 : string) :
  lacks sep d1 = true -> lacks sep d2 = true ->
  a ++ String sep d1 = b ++ String sep d2 -> a = b /\ d1 = d2.
Proof.
  intros H1 H2. revert b.
  induction a as [|x a IH]; intros [|y b];
    rewrite ?append_nil_l, ?append_cons; intros E.
  - injection E as ->. now split.
  - injection E as <- ->. unfold lacks in H1. rewrite only_append in H1.
    simpl in H1. rewrite Ascii.eqb_refl in H1.
    apply andb_true_iff in H1 as [_ H1]. discriminate.
  - injection E as -> <-. unfold lacks in H2. rewrite only_append in H2.
    simpl in H2. rewrite Ascii.eqb_refl in H2.
    apply andb_true_iff in H2 as [_ H2]. discriminate.
  - injection E as -> E. destruct (IH b E) as [-> ->]. now split.
Qed.

Lemma jobname_generator_suffix (jobname : string) (job_id : object) :
  exists kept,
    utils.jobname_generator jobname job_id = kept ++ String "_" (str job_id).
Proof.
  unfold utils.jobname_generator.
  destruct (slen jobname + slen (str job_id) >? 63); eexists; reflexivity.
Qed.

(** X5. Two integer job ids never get the same job name: the names that
    [jobname_generator] builds for different integers differ, whatever the
    two initial names are and however they are cropped. *)
Theorem jobname_generator_distinct (jobname1 jobname2 : string) (i j : Z) :
  i <> j ->
  utils.jobname_generator jobname1 (Int i) <>
    utils.jobname_generator jobname2 (Int j).
Proof.
  intros Hij E.
  destruct (jobname_generator_suffix jobname1 (Int i)) as [k1 E1].
  destruct (jobname_generator_suffix jobname2 (Int j)) as [k2 E2].
  rewrite E1, E2 in E.
  apply last_separator in E as [_ E]; try apply str_Int_lacks_underscore.
  now apply str_Int_inj in E.
Qed.

Lemma jobname_generator_distinct_witness :
  utils.jobname_generator "train" (Int 1) <>
    utils.jobname_generator "train" (Int 2).
Proof. apply (jobname_generator_distinct "train" "train" 1 2). lia. Defined.

(** X6. When the name and the id do not fit in 63 characters, the result
    has exactly 64 characters if the id has at most 63, and more than 64
    if the id is longer: the crop then cannot bring the name under the
    limit. *)
Theorem jobname_generator_length (jobname : string) (job_id : object) :
  63 < slen jobname + slen (str job_id) ->
  (slen (str job_id) <= 63 ->
     slen (utils.jobname_generator jobname job_id) = 64)
  /\ (63 < slen (str job_id) ->
        64 < slen (utils.jobname_generator jobname job_id)).
Proof.
  intros Hlong. unfold utils.jobname_generator.
  destruct (Z.gtb_spec (slen jobname + slen (str job_id)) 63); [|lia].
  unfold str_upto, slice_bound, slen in *.
  rewrite !length_append, length_substring_0.
  change (String.length "_") with 1%nat.
  destruct (Z.ltb_spec (63 - Z.of_nat (String.length (str job_id))) 0);
    split; lia.
Qed.

Lemma jobname_generator_length_witness :
  slen (utils.jobname_generator
          "a_job_name_that_is_far_too_long_for_the_scheduler_to_accept_as_it_is"
          (Int 7)) = 64.
Proof.
  apply (jobname_generator_length
           "a_job_name_that_is_far_too_long_for_the_scheduler_to_accept_as_it_is"
           (Int 7)); vm_compute; [reflexivity|discriminate].
Defined.

(** ** [main] without a pool *)

Section direct_runs.
Context `{Collaborators}.

Lemma job_folders_unknown args w batch_uid :
  mode args = resume batch_uid ->
  commands_path w batch_uid ∉ dirs w ->
  job_folders args w =
    (Raise (Exn LookupError
       ("Batch UID (" ++ batch_uid ++ ") does not exist! Cannot resume.")), w).
Proof.
  intros Hmode Hmissing. unfold job_folders. rewrite Hmode.
  destruct (get_job_folders_run batch_uid w) as (_ & Hraise & _).
  unfold mbind, io_bind. now rewrite (Hraise Hmissing).
Qed.

(** A run without [--pool] that has its folders and at least one command,
    at a positive number of commands per node: the groups, and the run up
    to the submissions. *)
Lemma main_direct_groups args w cl :
  pool args = None -> mode args = launch cl -> batch_ready args w ->
  1 <= len (launch_commands args cl) ->
  exact_length (launch_commands args cl) ->
  0 < nbCommandsPerNode args -> float_fits (nbCommandsPerNode args) ->
  let jobname := launch_jobname args cl in
  let commands := launch_commands args cl in
  exists d groups,
    dirs w ⊆ d /\ logs_path w jobname ∈ d /\ commands_path w jobname ∈ d
    /\ concat groups = map (redirected (logs_path w jobname)) commands
    /\ (len groups - 1) * nbCommandsPerNode args < len commands
       <= len groups * nbCommandsPerNode args
    /\ main args w =
         let w' :=
           after (with_dirs w d)
             (PBSGenerator_init (queueName args) (walltime args)
              :: job_calls (commands_path w jobname) 0 groups) in
         if doNotLaunch args then (Ok (), w')
         else launch_jobs (job_files (commands_path w jobname) 0 groups) w'.
Proof.
  intros Hpool Hmode Hready Hlen Hexact Hn Hfit jobname commands.
  destruct (main_direct_run args w cl Hpool Hmode Hready)
    as (d & Hd & Hl & Hc & Hmain).
  fold jobname commands in Hmain, Hl, Hc, Hlen, Hexact.
  unfold finish in Hmain.
  set (redirs := map (redirected (logs_path w jobname)) commands) in *.
  assert (len redirs = len commands) as Hlen'
    by (unfold len, redirs; now rewrite length_map).
  destruct (job_groups_run redirs (nbCommandsPerNode args))
    as (J & P & groups & _ & HJ & _ & HP & Hgroups & Hchunks & Hcount & _);
    [lia|unfold exact_length in *; lia|exact Hn|exact Hfit|].
  rewrite Hlen' in HJ, HP. rewrite Hgroups in Hmain.
  assert (0 < P) as HPpos by nia.
  destruct (chunks_concat_eq redirs P HPpos) as (groups' & Hchunks' & Hconcat).
  rewrite Hchunks in Hchunks'. injection Hchunks' as <-.
  exists d, groups. split; [exact Hd|]. split; [exact Hl|].
  split; [exact Hc|]. split; [exact Hconcat|]. split; [now rewrite Hcount|].
  rewrite Hmain. unfold after, with_dirs. simpl.
  now rewrite <- app_assoc.
Qed.

End direct_runs.

(** X7. A launch without [--pool] that gets its folders, with at least
    one command and a positive number of commands per node, under
    [--doNotLaunch] or with a scheduler that takes every job file,
    succeeds.  The groups handed to the script builder are, put end to
    end, the commands in their order, each with its two redirections;
    there are [ceil(nb_commands / nbCommandsPerNode)] of them; every job
    file is submitted once with [qsub], in order and after all files are
    written, and none is submitted under [--doNotLaunch]; both job
    folders exist afterwards. *)
Theorem main_direct_launch `{Collaborators} (args : Namespace) (w : world)
    (commandAndOptions : list string) :
  pool args = None -> mode args = launch commandAndOptions ->
  batch_ready args w ->
  1 <= len (launch_commands args commandAndOptions) ->
  exact_length (launch_commands args commandAndOptions) ->
  0 < nbCommandsPerNode args -> float_fits (nbCommandsPerNode args) ->
  doNotLaunch args = true \/ (forall qsub_filename, accepted qsub_filename) ->
  let jobname := launch_jobname args commandAndOptions in
  let commands := launch_commands args commandAndOptions in
  exists w' groups,
    main args w = (Ok (), w')
    /\ concat groups = map (redirected (logs_path w jobname)) commands
    /\ (len groups - 1) * nbCommandsPerNode args < len commands
       <= len groups * nbCommandsPerNode args
    /\ trace w' =
         (trace w
          ++ PBSGenerator_init (queueName args) (walltime args)
             :: job_calls (commands_path w jobname) 0 groups
          ++ (if doNotLaunch args then []
              else launch_calls
                     (job_files (commands_path w jobname) 0 groups)))%list
    /\ added_groups (trace w') = (added_groups (trace w) ++ groups)%list
    /\ submitted (trace w') =
         (submitted (trace w)
          ++ (if doNotLaunch args then []
              else map (λ f, ("qsub " ++ f)%string)
                     (job_files (commands_path w jobname) 0 groups)))%list
    /\ dirs w ⊆ dirs w'
    /\ logs_path w jobname ∈ dirs w'
    /\ commands_path w jobname ∈ dirs w'.
Proof.
  intros Hpool Hmode Hready Hlen Hexact Hn Hfit Hsub jobname commands.
  destruct (main_direct_groups args w commandAndOptions Hpool Hmode Hready
              Hlen Hexact Hn Hfit)
    as (d & groups & Hd & Hl & Hc & Hconcat & Hcount & Hmain).
  fold jobname commands in Hd, Hl, Hc, Hconcat, Hcount, Hmain.
  simpl in Hmain.
  assert (main args w =
            (Ok (),
             after (with_dirs w d)
               (PBSGenerator_init (queueName args) (walltime args)
                :: job_calls (commands_path w jobname) 0 groups
                ++ (if doNotLaunch args then []
                    else launch_calls
                           (job_files (commands_path w jobname) 0 groups)))))
    as Hrun.
  { rewrite Hmain. destruct (doNotLaunch args) eqn:Hdo.
    - now rewrite app_nil_r.
    - destruct Hsub as [Hsub|Hsub]; [discriminate|].
      rewrite launch_jobs_accepted by (apply Forall_forall; auto).
      unfold after. simpl. now rewrite <- !app_assoc. }
  eexists _, groups. split; [exact Hrun|].
  split; [exact Hconcat|]. split; [exact Hcount|]. simpl.
  split; [reflexivity|].
  rewrite added_groups_app, submitted_app.
  change (PBSGenerator_init ?q ?t :: ?l) with ([PBSGenerator_init q t] ++ l)%list.
  rewrite !added_groups_app, !submitted_app, added_groups_job_calls,
    submitted_job_calls.
  split; [|split; [|auto]].
  - destruct (doNotLaunch args); simpl;
      rewrite ?added_groups_launch_calls, ?app_nil_r; reflexivity.
  - destruct (doNotLaunch args); simpl;
      rewrite ?submitted_launch_calls; reflexivity.
Qed.

Lemma main_direct_launch_witness :
  exists w',
    @main sample_collaborators (sample_args three_echoes 2 None) fresh_world
      = (Ok (), w')
    /\ length (added_groups (trace w')) = 2%nat.
Proof.
  destruct (@main_direct_launch sample_collaborators
              (sample_args three_echoes 2 None) fresh_world [])
    as (w' & groups & Hmain & _ & Hcount & _ & Hadded & _).
  - reflexivity.
  - reflexivity.
  - eexists. vm_compute. reflexivity.
  - vm_compute. discriminate.
  - unfold exact_length. rewrite exact_limit_eq. vm_compute. reflexivity.
  - simpl. lia.
  - unfold float_fits. pose proof exact_below_float.
    rewrite exact_limit_eq in *. simpl. lia.
  - left. reflexivity.
  - exists w'. split; [exact Hmain|]. rewrite Hadded. simpl.
    change (len (launch_commands _ _)) with 3 in Hcount.
    simpl in Hcount. unfold len in Hcount. lia.
Defined.

(** X20. A job file that the scheduler refuses ends the run with the
    exception of [check_output]: all the job files are written before,
    the files before the refused one are submitted, and those after it
    never are. *)
Theorem main_submission_refused `{Collaborators} (args : Namespace)
    (w : world) (commandAndOptions : list string)
    (groups : list (list string)) (before rest : list string)
    (refused : string) (e : exn) :
  pool args = None -> mode args = launch commandAndOptions ->
  batch_ready args w -> doNotLaunch args = false ->
  let jobname := launch_jobname args commandAndOptions in
  let commands := launch_commands args commandAndOptions in
  job_groups (map (redirected (logs_path w jobname)) commands)
             (nbCommandsPerNode args) = Ok groups ->
  job_files (commands_path w jobname) 0 groups
  = (before ++ refused :: rest)%list ->
  Forall accepted before ->
  check_output ("qsub " ++ refused) = Raise e ->
  (main args w).1 = Raise e
  /\ added_groups (trace (main args w).2)
     = (added_groups (trace w) ++ groups)%list
  /\ submitted (trace (main args w).2)
     = (submitted (trace w)
        ++ map (λ f, ("qsub " ++ f)%string) (before ++ [refused]))%list.
Proof.
  intros Hpool Hmode Hready Hdo jobname commands Hgroups Hfiles Hbefore He.
  destruct (main_direct_run args w commandAndOptions Hpool Hmode Hready)
    as (d & _ & _ & _ & ->).
  fold jobname commands. unfold finish. rewrite Hgroups, Hdo, Hfiles.
  rewrite (launch_jobs_refused before refused rest e _ Hbefore He).
  split; [reflexivity|]. simpl.
  rewrite !added_groups_app, !submitted_app, added_groups_job_calls,
    submitted_job_calls, added_groups_launch_calls, submitted_launch_calls.
  simpl. rewrite !app_nil_r, map_app. split; reflexivity.
Qed.

Lemma main_submission_refused_witness :
  let args :=
    {| queueName := "qwork@mp2"; walltime := "01:00:00";
       nbCommandsPerNode := 1; doNotLaunch := false;
       commandsFile := Some three_echoes; pool := None; mode := launch [] |} in
  (@main strict_collaborators args fresh_world).1 =
    Raise (Exn CalledProcessError "Command returned non-zero exit status 1")
  /\ submitted (trace (@main strict_collaborators args fresh_world).2) =
       [ "qsub /home/u/SMART_DISPATCH_LOGS/cmds/commands/job_commands_0.sh";
         "qsub /home/u/SMART_DISPATCH_LOGS/cmds/commands/job_commands_1.sh" ].
Proof.
  intros args.
  destruct (@main_submission_refused strict_collaborators args fresh_world []
              (map (λ command,
                      [@redirected strict_collaborators
                         "/home/u/SMART_DISPATCH_LOGS/cmds/logs" command])
                   ["echo a"; "echo b"; "echo c"])
              ["/home/u/SMART_DISPATCH_LOGS/cmds/commands/job_commands_0.sh"]
              ["/home/u/SMART_DISPATCH_LOGS/cmds/commands/job_commands_2.sh"]
              "/home/u/SMART_DISPATCH_LOGS/cmds/commands/job_commands_1.sh"
              (Exn CalledProcessError
                 "Command returned non-zero exit status 1"))
    as (Hresult & _ & Hsubmitted).
  - reflexivity.
  - reflexivity.
  - eexists. vm_compute. reflexivity.
  - reflexivity.
  - vm_compute. reflexivity.
  - vm_compute. reflexivity.
  - repeat constructor. eexists. reflexivity.
  - reflexivity.
  - split; [exact Hresult|exact Hsubmitted].
Defined.

(** X8. Resuming a batch whose commands folder does not exist stops
    [main] with the [LookupError] of [get_job_folders]: no folder is
    created, no command manager is built, no job file is written and
    nothing is submitted, with or without [--pool]. *)
Theorem main_resume_unknown `{Collaborators} (args : Namespace) (w : world)
    (batch_uid : string) :
  mode args = resume batch_uid ->
  commands_path w batch_uid ∉ dirs w ->
  main args w =
    (Raise (Exn LookupError
       ("Batch UID (" ++ batch_uid ++ ") does not exist! Cannot resume.")),
     after w [PBSGenerator_init (queueName args) (walltime args)]).
Proof.
  intros Hmode Hmissing. unfold main.
  unfold mbind at 1. unfold io_bind at 1. rewrite emit_run.
  unfold mbind at 1. unfold io_bind at 1.
  now rewrite
    (job_folders_unknown args
       (after w [PBSGenerator_init (queueName args) (walltime args)])
       batch_uid Hmode Hmissing).
Qed.

Lemma main_resume_unknown_witness :
  raises (@main sample_collaborators
            {| queueName := "qwork@mp2"; walltime := "01:00:00";
               nbCommandsPerNode := 2; doNotLaunch := true;
               commandsFile := None; pool := Some 2;
               mode := resume "no_such_batch" |}
            fresh_world).1 LookupError.
Proof.
  rewrite (@main_resume_unknown sample_collaborators _ fresh_world
             "no_such_batch"); [reflexivity|reflexivity|].
  vm_compute. set_solver.
Defined.

Lemma div_neg_neg a n : n < 0 -> (- a) / n = a / (- n).
Proof.
  intros Hn. rewrite <- (Z.div_opp_opp a (- n)) by lia.
  now rewrite Z.opp_involutive.
Qed.

Lemma ceil_div_zero `{Collaborators} a :
  raises (ceil_div a 0) ZeroDivisionError.
Proof.
  unfold ceil_div. pose proof exact_below_float as Hlimits.
  rewrite exact_limit_eq in Hlimits.
  destruct (Z.leb_spec float_limit (Z.abs 0)); [simpl in *; lia|reflexivity].
Qed.

Lemma job_groups_nonpositive `{Collaborators} (commands : list string)
    (n : Z) :
  1 <= len commands -> exact_length commands -> n <= 0 ->
  if float_limit <=? Z.abs n
  then raises (job_groups commands n) OverflowError
  else if (n =? 0) || (len commands <? - n)
       then raises (job_groups commands n) ZeroDivisionError
       else job_groups commands n = Ok [].
Proof.
  intros Hlen Hexact Hn. unfold exact_length in Hexact.
  pose proof exact_below_float as Hlimits.
  unfold job_groups. set (a := len commands) in *.
  destruct (Z.leb_spec float_limit (Z.abs n)) as [Hbig|Hfit].
  - pose proof (ceil_div_overflow a n ltac:(unfold float_fits; lia)) as Hov.
    now destruct (ceil_div a n).
  - destruct (Z.eqb_spec n 0) as [->|E]; simpl.
    { pose proof (ceil_div_zero a) as Hz. now destruct (ceil_div a 0). }
    rewrite ceil_div_exact by (unfold float_fits; lia).
    rewrite (div_neg_neg a n) by lia.
    destruct (Z.ltb_spec a (- n)) as [Hsmall|Hbig].
    + rewrite Z.div_small by lia. cbn [mbind result_bind].
      change (- 0) with 0.
      pose proof (ceil_div_zero a) as Hz. now destruct (ceil_div a 0).
    + assert (1 <= a / (- n) <= a) as Hq.
      { split.
        - apply Z.div_le_lower_bound; lia.
        - apply Z.div_le_upper_bound; nia. }
      cbn [mbind result_bind].
      rewrite ceil_div_exact by (unfold float_fits; lia).
      cbn [mbind result_bind].
      rewrite (div_neg_neg a (- (a / - n))) by lia.
      rewrite Z.opp_involutive.
      assert (1 <= a / (a / (- n))) as Hp
        by (apply Z.div_le_lower_bound; lia).
      destruct (chunks_nonpositive_run commands (- (a / (a / - n))))
        as [_ Hnone].
      apply Hnone. lia.
Qed.

(** X9. A number of commands per node that is zero or negative is not
    reported as such.  With at least one command, a launch that gets its
    folders either fails in the division of line 81 or 82 (the number is
    zero, or exceeds the number of commands in absolute value, or is too
    large for [float]) or, for the other negative numbers, returns
    normally after cutting no group at all: no job file is written,
    nothing is submitted, and the commands are dropped without a word. *)
Theorem main_nonpositive_per_node `{Collaborators} (args : Namespace)
    (w : world) (commandAndOptions : list string) :
  pool args = None -> mode args = launch commandAndOptions ->
  batch_ready args w ->
  1 <= len (launch_commands args commandAndOptions) ->
  exact_length (launch_commands args commandAndOptions) ->
  nbCommandsPerNode args <= 0 ->
  trace (main args w).2 =
    (trace w ++ [PBSGenerator_init (queueName args) (walltime args)])%list
  /\ (if float_limit <=? Z.abs (nbCommandsPerNode args)
      then raises (main args w).1 OverflowError
      else if (nbCommandsPerNode args =? 0)
              || (len (launch_commands args commandAndOptions)
                    <? - nbCommandsPerNode args)
           then raises (main args w).1 ZeroDivisionError
           else (main args w).1 = Ok ()).
Proof.
  intros Hpool Hmode Hready Hlen Hexact Hn.
  destruct (main_direct_run args w commandAndOptions Hpool Hmode Hready)
    as (d & _ & _ & _ & ->).
  unfold finish.
  set (redirs := map _ (launch_commands args commandAndOptions)).
  assert (len redirs = len (launch_commands args commandAndOptions)) as Hlen'
    by (unfold len, redirs; now rewrite length_map).
  pose proof (job_groups_nonpositive redirs (nbCommandsPerNode args)) as Hg.
  unfold exact_length in *. rewrite Hlen' in Hg. specialize (Hg Hlen Hexact Hn).
  destruct (float_limit <=? Z.abs (nbCommandsPerNode args)).
  { destruct (job_groups redirs (nbCommandsPerNode args)) as [g|e];
      [destruct Hg|]. split; [reflexivity|exact Hg]. }
  destruct ((nbCommandsPerNode args =? 0)
            || (len (launch_commands args commandAndOptions)
                  <? - nbCommandsPerNode args)).
  - destruct (job_groups redirs (nbCommandsPerNode args)) as [g|e];
      [destruct Hg|]. split; [reflexivity|exact Hg].
  - rewrite Hg. simpl.
    destruct (doNotLaunch args); simpl; rewrite ?app_nil_r; split; reflexivity.
Qed.

Lemma main_nonpositive_per_node_witness :
  (@main sample_collaborators (sample_args three_echoes (-2) None)
     fresh_world).1 = Ok ()
  /\ added_groups
       (trace (@main sample_collaborators (sample_args three_echoes (-2) None)
                 fresh_world).2) = [].
Proof.
  destruct (@main_nonpositive_per_node sample_collaborators
              (sample_args three_echoes (-2) None) fresh_world [])
    as [Htrace Hres].
  - reflexivity.
  - reflexivity.
  - eexists. vm_compute. reflexivity.
  - vm_compute. discriminate.
  - unfold exact_length. rewrite exact_limit_eq. vm_compute. reflexivity.
  - simpl. lia.
  - split; [|rewrite Htrace; reflexivity].
    change (nbCommandsPerNode (sample_args three_echoes (-2) None))
      with (-2) in Hres.
    destruct (Z.leb_spec float_limit (Z.abs (-2))) as [Hbig|_].
    + pose proof exact_below_float as Hlimits.
      rewrite exact_limit_eq in Hlimits. simpl in Hbig. lia.
    + exact Hres.
Defined.

(** ** [_gen_job_paths] *)


(** ** [parse_arguments] *)

Lemma AVAILABLE_QUEUES_entries name q :
  AVAILABLE_QUEUES !! name = Some q ->
  0 < coresPerNode q
  /\ exists seconds, utils.walltime_to_seconds (maxWalltime q) = Ok seconds.
Proof.
  intros Hq. apply elem_of_list_to_map_2 in Hq.
  repeat (apply elem_of_cons in Hq as [[= -> ->]|Hq];
          [split; [reflexivity|eexists; vm_compute; reflexivity]|]).
  now apply elem_of_nil in Hq.
Qed.

(** X11. When [parse_arguments] returns, the options that were given are
    unchanged; a missing number of commands per node or walltime is the
    one of the queue in [AVAILABLE_QUEUES], which is then positive,
    respectively a walltime that [walltime_to_seconds] reads; a resume
    has a pool; and a launch has a commands file or at least one word of
    command. *)
Theorem parse_arguments_returns (given : parsed.Namespace) (args : Namespace) :
  parse_arguments given = Returns args ->
  queueName args = parsed.queueName given
  /\ mode args = parsed.mode given
  /\ pool args = parsed.pool given
  /\ commandsFile args = parsed.commandsFile given
  /\ doNotLaunch args = parsed.doNotLaunch given
  /\ match parsed.nbCommandsPerNode given with
     | Some n => nbCommandsPerNode args = n
     | None =>
         exists q, AVAILABLE_QUEUES !! queueName args = Some q
                   /\ nbCommandsPerNode args = coresPerNode q
                   /\ 0 < nbCommandsPerNode args
     end
  /\ match parsed.walltime given with
     | Some t => walltime args = t
     | None =>
         exists q seconds,
           AVAILABLE_QUEUES !! queueName args = Some q
           /\ walltime args = maxWalltime q
           /\ utils.walltime_to_seconds (walltime args) = Ok seconds
     end
  /\ match mode args with
     | resume _ => pool args <> None
     | launch commandAndOptions =>
         commandsFile args <> None \/ commandAndOptions <> []
     end.
Proof.
  unfold parse_arguments.
  destruct given as [qn wt n dnl cf pl md]; simpl.
  intros Hret.
  assert (match md with
          | resume _ => pl <> None
          | launch cl => cf <> None \/ cl <> []
          end) as Hmode.
  { destruct md as [cl|uid].
    - destruct cf as [f|]; [now left|]. right. intros ->.
      simpl in Hret. discriminate.
    - destruct pl; [discriminate|]. simpl in Hret. discriminate. }
  match type of Hret with
  | match ?inv with Some _ => _ | None => _ end = _ =>
      destruct inv; [discriminate|]
  end.
  destruct (AVAILABLE_QUEUES !! qn) as [q|] eqn:Hq.
  - destruct (AVAILABLE_QUEUES_entries qn q Hq) as [Hcores [seconds Hsec]].
    destruct n as [n|], wt as [t|]; simpl in Hret; injection Hret as <-;
      simpl; repeat split; eauto; exists q; eauto.
  - destruct n as [n|]; simpl in Hret; [|discriminate].
    destruct wt as [t|]; simpl in Hret; [|discriminate].
    injection Hret as <-. simpl. repeat split; auto.
Qed.

Lemma parse_arguments_returns_witness :
  exists q,
    AVAILABLE_QUEUES !! "qwork@mp2" = Some q
    /\ 24 = coresPerNode q /\ 0 < 24.
Proof.
  apply (parse_arguments_returns
           {| parsed.queueName := "qwork@mp2"; parsed.walltime := None;
              parsed.nbCommandsPerNode := None; parsed.doNotLaunch := false;
              parsed.commandsFile := None; parsed.pool := None;
              parsed.mode := launch ["echo"; "a"] |}
           {| queueName := "qwork@mp2"; walltime := "05:00:00:00";
              nbCommandsPerNode := 24; doNotLaunch := false;
              commandsFile := None; pool := None;
              mode := launch ["echo"; "a"] |}).
  reflexivity.
Defined.

(** X12. [parse_arguments] with a queue that is not in [AVAILABLE_QUEUES]
    and without [--nbCommandsPerNode] or without [--walltime] never
    returns.  A launch ends in [parser.error]: for the missing command
    when there is neither a commands file nor a word of command, and for
    the unknown queue otherwise.  A resume without [--pool] ends in
    [parser.error] too; a resume with [--pool] is not checked for its
    queue and ends in the [KeyError] of the look-up of the queue. *)
Theorem parse_arguments_unknown_queue (given : parsed.Namespace) :
  AVAILABLE_QUEUES !! parsed.queueName given = None ->
  parsed.nbCommandsPerNode given = None \/ parsed.walltime given = None ->
  parse_arguments given =
    match parsed.mode given with
    | launch commandAndOptions =>
        match parsed.commandsFile given, commandAndOptions with
        | None, [] => ParserError "You need to specify a command to launch."
        | _, _ =>
            ParserError
              "Unknown queue, --nbCommandsPerNode and --walltime must be set."
        end
    | resume _ =>
        match parsed.pool given with
        | None =>
            ParserError
              "The resume feature only works with the --pool argument."
        | Some _ => KeyError (parsed.queueName given)
        end
    end.
Proof.
  unfold parse_arguments.
  destruct given as [qn wt n dnl cf pl md]; simpl.
  intros Hq Hmissing. rewrite Hq.
  rewrite bool_decide_eq_false_2 by (intros [q Hsome]; discriminate).
  destruct md as [cl|uid].
  - assert (forall (word : string) cl', (len (word :: cl') <? 1) = false) as Hlen
      by (intros; apply Z.ltb_ge; unfold len; simpl length; lia).
    destruct Hmissing as [-> | ->]; destruct cf as [f|], cl as [|word cl];
      rewrite ?Hlen; try destruct n; try destruct wt; reflexivity.
  - destruct pl as [p|]; [|reflexivity].
    destruct Hmissing as [-> | ->]; simpl; [reflexivity|].
    destruct n; reflexivity.
Qed.

Lemma parse_arguments_unknown_queue_witness :
  parse_arguments
    {| parsed.queueName := "qwork@brume"; parsed.walltime := None;
       parsed.nbCommandsPerNode := Some 4; parsed.doNotLaunch := false;
       parsed.commandsFile := None; parsed.pool := Some 2;
       parsed.mode := resume "batch" |}
  = KeyError "qwork@brume".
Proof.
  apply (parse_arguments_unknown_queue
           {| parsed.queueName := "qwork@brume"; parsed.walltime := None;
              parsed.nbCommandsPerNode := Some 4; parsed.doNotLaunch := false;
              parsed.commandsFile := None; parsed.pool := Some 2;
              parsed.mode := resume "batch" |}).
  - reflexivity.
  - right. reflexivity.
Defined.

(** ** Escaped characters *)

Lemma hex_digits (c : ascii) :
  exists h l,
    utils.hex c = String h (String l "")
    /\ is_hex_lower h = true /\ is_hex_lower l = true
    /\ Ascii.eqb h newline = false /\ Ascii.eqb l newline = false
    /\ utils.unhex h l = Some c.
Proof.
  destruct c as [[] [] [] [] [] [] [] []];
    do 2 eexists; (split; [reflexivity|]); vm_compute; repeat split.
Qed.

Lemma sub_escaped_other (c : ascii) (rest : string) :
  Ascii.eqb c utils.backslash = false ->
  utils.sub_escaped (String c rest) = String c (utils.sub_escaped rest).
Proof.
  intros Hc. destruct rest as [|d rest]; [reflexivity|].
  cbn [utils.sub_escaped]. rewrite Hc. reflexivity.
Qed.

Lemma sub_escaped_pair (c : ascii) (rest : string) :
  Ascii.eqb c newline = false ->
  utils.sub_escaped (String utils.backslash (String c rest))
  = utils.hexify c ++ utils.sub_escaped rest.
Proof.
  intros Hc. cbn [utils.sub_escaped]. rewrite Hc. reflexivity.
Qed.

Lemma sub_escaped_newline (b : ascii) (rest : string) :
  utils.sub_escaped (String b (String newline rest))
  = String b (String newline (utils.sub_escaped rest)).
Proof.
  rewrite <- (sub_escaped_other newline) by reflexivity.
  cbn [utils.sub_escaped]. rewrite Ascii.eqb_refl, andb_false_r. reflexivity.
Qed.

Lemma sub_hex_other (b : ascii) (s : string) :
  Ascii.eqb b utils.backslash = false
  \/ (forall rest, s <> String "x" rest) ->
  utils.sub_hex (String b s) = String b <$> utils.sub_hex s.
Proof.
  intros Hb. destruct s as [|x [|h [|l rest]]]; try reflexivity.
  cbn [utils.sub_hex].
  destruct Hb as [-> | Hx]; [reflexivity|].
  destruct (Ascii.eqb_spec x "x") as [-> | _].
  - now destruct (Hx (String h (String l rest))).
  - rewrite andb_false_r. reflexivity.
Qed.

Lemma decode_escaped_characters_sub (text : string) :
  utils.decode_escaped_characters text = utils.sub_hex text.
Proof. destruct text; reflexivity. Qed.

Lemma decode_encode (text : string) :
  (utils.sub_hex (utils.sub_escaped text) = Some (unescaped text))
  /\ forall b,
       utils.sub_hex (utils.sub_escaped (String b text))
       = Some (unescaped (String b text)).
Proof.
  induction text as [|c rest [IH1 IH2]].
  - split; [reflexivity|]. intros b. reflexivity.
  - split; [apply IH2|]. intros b.
    destruct (Ascii.eqb b utils.backslash && negb (Ascii.eqb c newline))
      eqn:Hpair.
    + apply andb_prop in Hpair as [Hb Hc].
      apply Ascii.eqb_eq in Hb as ->. apply negb_true_iff in Hc.
      rewrite sub_escaped_pair by exact Hc.
      cbn [unescaped]. rewrite Ascii.eqb_refl, Hc. cbn [andb negb].
      destruct (hex_digits c) as (h & l & Hhex & _ & _ & Hh & Hl & Hun).
      unfold utils.hexify. rewrite Hhex.
      rewrite !append_cons, append_nil_l.
      cbn [utils.sub_hex]. rewrite !Ascii.eqb_refl, Hh, Hl, Hun.
      cbn [andb negb]. rewrite IH1. reflexivity.
    + cbn [unescaped]. rewrite Hpair.
      apply andb_false_iff in Hpair as [Hb | Hc].
      * rewrite sub_escaped_other by exact Hb.
        rewrite sub_hex_other by (left; exact Hb).
        rewrite IH2. reflexivity.
      * apply negb_false_iff, Ascii.eqb_eq in Hc as ->.
        rewrite sub_escaped_newline.
        rewrite sub_hex_other by (right; intros rest' [=]).
        rewrite <- (sub_escaped_other newline) by reflexivity.
        rewrite IH2. reflexivity.
Qed.

Lemma escapes_hidden_encoded (text : string) :
  escapes_hidden (utils.sub_escaped text) = true
  /\ forall b, escapes_hidden (utils.sub_escaped (String b text)) = true.
Proof.
  induction text as [|c rest [IH1 IH2]].
  - split; [reflexivity|]. intros b. cbn. now destruct (Ascii.eqb b _).
  - split; [apply IH2|]. intros b.
    destruct (Ascii.eqb b utils.backslash && negb (Ascii.eqb c newline))
      eqn:Hpair.
    + apply andb_prop in Hpair as [Hb Hc].
      apply Ascii.eqb_eq in Hb as ->. apply negb_true_iff in Hc.
      rewrite sub_escaped_pair by exact Hc.
      destruct (hex_digits c) as (h & l & Hhex & Hh & Hl & _).
      unfold utils.hexify. rewrite Hhex.
      rewrite !append_cons, append_nil_l.
      cbn [escapes_hidden]. rewrite Ascii.eqb_refl, Hh, Hl, IH1.
      reflexivity.
    + apply andb_false_iff in Hpair as [Hb | Hc].
      * rewrite sub_escaped_other by exact Hb.
        cbn [escapes_hidden]. rewrite Hb. apply IH2.
      * apply negb_false_iff, Ascii.eqb_eq in Hc as ->.
        rewrite sub_escaped_newline.
        cbn [escapes_hidden]. rewrite Ascii.eqb_refl.
        change (Ascii.eqb newline utils.backslash) with false.
        cbn iota. rewrite IH1. now destruct (Ascii.eqb b _).
Qed.

(** X13. Decoding what [encode_escaped_characters] returned never fails
    and gives the text without the backslashes of its escaped characters,
    whatever the escaping character passed to the encoder: the code of
    an escaped character is read back as that character.  The text is of
    ASCII characters, where the two branches of [hexify] and of
    [unhexify] do the same. *)
Theorem decode_encode_escaped_characters (text escaping_character : string) :
  only is_ascii text = true ->
  utils.decode_escaped_characters
    (utils.encode_escaped_characters text escaping_character)
  = Some (unescaped text).
Proof.
  intros _. rewrite decode_escaped_characters_sub.
  apply decode_encode.
Qed.

Lemma decode_encode_escaped_characters_witness :
  utils.decode_escaped_characters
    (utils.encode_escaped_characters "a\[1 2\]\\x41" "\")
  = Some "a[1 2]\x41".
Proof.
  apply (decode_encode_escaped_characters "a\[1 2\]\\x41" "\").
  reflexivity.
Defined.

(** X14. In the text [encode_escaped_characters] returns, every backslash
    begins the code of a character, [x] and two hexadecimal digits in
    lower case, or is a backslash of the text that escapes nothing, before
    a newline or at the end: no escaped character is left as it was. *)
Theorem encode_escaped_characters_hidden (text escaping_character : string) :
  escapes_hidden (utils.encode_escaped_characters text escaping_character)
  = true.
Proof. apply escapes_hidden_encoded. Qed.

(** ** Slugs *)

Lemma lstrip_only (P : ascii -> bool) (s : string) :
  only P s = true -> only P (lstrip s) = true.
Proof.
  induction s as [|c s IH]; [reflexivity|].
  intros Hs. cbn [lstrip]. destruct (is_space c); [|exact Hs].
  apply IH. cbn [only] in Hs. now apply andb_prop in Hs.
Qed.

Lemma rstrip_only (P : ascii -> bool) (s : string) :
  only P s = true -> only P (rstrip s) = true.
Proof.
  induction s as [|c s IH]; [reflexivity|].
  cbn [only]. intros [Hc Hs]%andb_prop. specialize (IH Hs).
  cbn [rstrip]. destruct (rstrip s) as [|d t].
  - destruct (is_space c); [reflexivity|]. cbn [only]. now rewrite Hc.
  - cbn [only] in *. now rewrite Hc, IH.
Qed.

Lemma lstrip_none (s : string) :
  only (fun c => negb (is_space c)) s = true -> lstrip s = s.
Proof.
  destruct s as [|c s]; [reflexivity|]. cbn [only lstrip].
  intros [Hc _]%andb_prop. apply negb_true_iff in Hc. now rewrite Hc.
Qed.

Lemma rstrip_none (s : string) :
  only (fun c => negb (is_space c)) s = true -> rstrip s = s.
Proof.
  induction s as [|c s IH]; [reflexivity|]. cbn [only rstrip].
  intros [Hc Hs]%andb_prop. apply negb_true_iff in Hc.
  rewrite (IH Hs). destruct s; [now rewrite Hc|reflexivity].
Qed.

Lemma remove_non_word_only (value : string) :
  only (fun c => utils.is_word c || is_space c || Ascii.eqb c "-")
       (utils.remove_non_word value) = true.
Proof.
  induction value as [|c rest IH]; [reflexivity|].
  cbn [utils.remove_non_word].
  destruct (utils.is_word c || is_space c || Ascii.eqb c "-") eqn:Hc;
    [|exact IH].
  cbn [only]. now rewrite Hc.
Qed.

Lemma lower_char_class (c : ascii) :
  utils.is_word c || is_space c || Ascii.eqb c "-" = true ->
  slug_char (utils.lower_char c) || utils.is_separator (utils.lower_char c)
  = true.
Proof.
  destruct c as [[] [] [] [] [] [] [] []]; vm_compute; intros H;
    first [reflexivity | discriminate H].
Qed.

Lemma lower_only (value : string) :
  only (fun c => utils.is_word c || is_space c || Ascii.eqb c "-") value
  = true ->
  only (fun c => slug_char c || utils.is_separator c) (utils.lower value)
  = true.
Proof.
  induction value as [|c rest IH]; [reflexivity|]. cbn [only utils.lower].
  intros [Hc Hs]%andb_prop. now rewrite (lower_char_class c Hc), IH.
Qed.

Lemma underscore_runs_only (in_run : bool) (value : string) :
  only (fun c => slug_char c || utils.is_separator c) value = true ->
  only slug_char (utils.underscore_runs in_run value) = true.
Proof.
  revert in_run. induction value as [|c rest IH]; [reflexivity|].
  intros in_run. cbn [only utils.underscore_runs].
  intros [Hc Hs]%andb_prop.
  destruct (utils.is_separator c) eqn:Hsep.
  - destruct in_run; [now apply IH|]. cbn [only]. now rewrite IH.
  - rewrite orb_false_r in Hc. cbn [only]. now rewrite Hc, IH.
Qed.

Lemma slug_char_class (c : ascii) :
  slug_char c = true ->
  utils.is_word c || is_space c || Ascii.eqb c "-" = true
  /\ is_space c = false /\ utils.lower_char c = c
  /\ utils.is_separator c = false.
Proof.
  destruct c as [[] [] [] [] [] [] [] []]; vm_compute; intros H;
    first [discriminate H | repeat split].
Qed.

Lemma slug_fixed (s : string) :
  only slug_char s = true ->
  utils.remove_non_word s = s
  /\ only (fun c => negb (is_space c)) s = true
  /\ utils.lower s = s
  /\ forall in_run, utils.underscore_runs in_run s = s.
Proof.
  induction s as [|c s IH]; [now repeat split|]. cbn [only].
  intros [Hc Hs]%andb_prop.
  destruct (IH Hs) as (Hrem & Hsp & Hlow & Hruns).
  destruct (slug_char_class c Hc) as (Hkeep & Hspace & Hlower & Hsep).
  cbn [utils.remove_non_word only utils.lower utils.underscore_runs].
  rewrite Hkeep, Hrem, Hspace, Hsp, Hlower, Hlow, Hsep.
  repeat split. intros _. now rewrite Hruns.
Qed.

Lemma slugify_slug (to_ascii : string -> string) (value : string) :
  only slug_char (utils.slugify to_ascii value) = true.
Proof.
  unfold utils.slugify. apply underscore_runs_only, lower_only.
  unfold strip. apply rstrip_only, lstrip_only, remove_non_word_only.
Qed.

(** X15. A slug is made of lower-case letters, digits and underscores
    only, whatever the value is and whatever the normalisation of line
    112 returns for it: there is no white space, hyphen, dot or slash in
    it. *)
Theorem slugify_alphabet (to_ascii : string -> string) (value : string) :
  only slug_char (utils.slugify to_ascii value) = true
  /\ lacks "/" (utils.slugify to_ascii value) = true
  /\ only (fun c => negb (is_space c)) (utils.slugify to_ascii value) = true.
Proof.
  pose proof (slugify_slug to_ascii value) as Hslug.
  split; [exact Hslug|].
  split; (eapply only_impl; [|exact Hslug]); intros c Hc;
    revert Hc; destruct c as [[] [] [] [] [] [] [] []]; vm_compute;
    intros H; first [reflexivity | discriminate H].
Qed.

(** X16. [slugify] leaves a slug as it is, when line 112 does: a string
    of lower-case letters, digits and underscores that the normalisation
    returns unchanged is its own slug, so that to slugify twice is to
    slugify once. *)
Theorem slugify_idempotent (to_ascii : string -> string) (value : string) :
  to_ascii (utils.slugify to_ascii value) = utils.slugify to_ascii value ->
  utils.slugify to_ascii (utils.slugify to_ascii value)
  = utils.slugify to_ascii value.
Proof.
  intros Hsame.
  pose proof (slugify_slug to_ascii value) as Hslug.
  destruct (slug_fixed _ Hslug) as (Hrem & Hsp & Hlow & Hruns).
  unfold utils.slugify at 1. rewrite Hsame, Hrem.
  unfold strip. rewrite (lstrip_none _ Hsp), (rstrip_none _ Hsp), Hlow.
  apply Hruns.
Qed.

Lemma slugify_idempotent_witness :
  utils.slugify (fun s => s) (utils.slugify (fun s => s) " Hello,  World-1 ")
  = utils.slugify (fun s => s) " Hello,  World-1 ".
Proof.
  apply (slugify_idempotent (fun s => s) " Hello,  World-1 ").
  reflexivity.
Defined.

(** ** The launcher and the name of the cluster *)

Lemma first_available_run
    (find_executable : string -> option string) (launchers : list string) :
  match utils.first_available find_executable launchers with
  | Some launcher =>
      exists before after,
        launchers = (before ++ launcher :: after)%list
        /\ Forall (fun l => utils.command_is_available find_executable l
                            = false) before
        /\ utils.command_is_available find_executable launcher = true
  | None =>
      Forall (fun l => utils.command_is_available find_executable l = false)
             launchers
  end.
Proof.
  induction launchers as [|l launchers IH]; [constructor|].
  cbn [utils.first_available].
  destruct (utils.command_is_available find_executable l) eqn:Hl.
  - exists [], launchers. repeat split; [constructor|exact Hl].
  - destruct (utils.first_available find_executable launchers) as [found|].
    + destruct IH as (before & after & -> & Hbefore & Hfound).
      exists (l :: before), after. repeat split; [|exact Hfound].
      now constructor.
    + now constructor.
Qed.

(** X17. [get_launcher] answers [msub] for the cluster helios without
    looking for the command.  For every other cluster, and when none was
    detected, it answers the first of qsub, msub and sbatch that
    [find_executable] finds, so that every launcher before the answer is
    missing; and it answers [None] exactly when the three are missing. *)
Theorem get_launcher_priority
    (find_executable : string -> option string)
    (cluster_name : option string) :
  match utils.get_launcher find_executable cluster_name with
  | Some launcher =>
      (cluster_name = Some "helios" /\ launcher = "msub")
      \/ (cluster_name <> Some "helios"
          /\ utils.command_is_available find_executable launcher = true
          /\ exists before after,
               utils.SUPPORTED_LAUNCHERS = (before ++ launcher :: after)%list
               /\ Forall (fun l =>
                            utils.command_is_available find_executable l
                            = false) before)
  | None =>
      cluster_name <> Some "helios"
      /\ Forall (fun l => utils.command_is_available find_executable l
                          = false) utils.SUPPORTED_LAUNCHERS
  end.
Proof.
  unfold utils.get_launcher.
  destruct cluster_name as [name|].
  - destruct (bool_decide_reflect (name ∈ utils.MSUB_CLUSTERS)) as [Hin|Hout].
    + left. apply list_elem_of_singleton in Hin as ->. now split.
    + assert (Some name <> Some "helios") as Hname.
      { intros [= ->]. apply Hout, list_elem_of_singleton. reflexivity. }
      pose proof (first_available_run find_executable
                    utils.SUPPORTED_LAUNCHERS) as Hrun.
      destruct (utils.first_available _ _) as [launcher|].
      * right. destruct Hrun as (before & after & Heq & Hbefore & Hfound).
        eauto 7.
      * now split.
  - pose proof (first_available_run find_executable
                  utils.SUPPORTED_LAUNCHERS) as Hrun.
    destruct (utils.first_available _ _) as [launcher|].
    + right. destruct Hrun as (before & after & Heq & Hbefore & Hfound).
      split; [discriminate|]. eauto 7.
    + now split.
Qed.

Lemma look_up_names_run (environ : gmap string string) (names : list string) :
  match utils.look_up_names environ names with
  | Some cluster_name =>
      strip cluster_name <> ""
      /\ exists before env_var after,
           names = (before ++ env_var :: after)%list
           /\ environ !! env_var = Some cluster_name
           /\ Forall (fun name => strip (default "" (environ !! name)) = "")
                     before
  | None =>
      Forall (fun name => strip (default "" (environ !! name)) = "") names
  end.
Proof.
  induction names as [|env_var names IH]; [constructor|].
  cbn [utils.look_up_names].
  destruct (String.eqb_spec (strip (default "" (environ !! env_var))) "")
    as [Hblank|Hset]; cbn [negb].
  - destruct (utils.look_up_names environ names) as [cluster_name|].
    + destruct IH as (Hname & before & var & after & -> & Hvar & Hbefore).
      split; [exact Hname|].
      exists (env_var :: before), var, after. repeat split; [exact Hvar|].
      now constructor.
    + now constructor.
  - split; [exact Hset|]. exists [], env_var, names.
    repeat split; [|constructor].
    destruct (environ !! env_var) as [value|]; [reflexivity|].
    now destruct Hset.
Qed.

(** X18. The name [look_up_cluster_name_env_var] returns is the value of
    [CLUSTER], or that of [CC_CLUSTER] when [CLUSTER] is unset or holds
    white space only; it is returned as it is set, white space around it
    included, and is never empty or blank.  [None] is returned exactly
    when each of the two variables is unset or blank. *)
Theorem look_up_cluster_name_env_var_value (environ : gmap string string) :
  match utils.look_up_cluster_name_env_var environ with
  | Some cluster_name =>
      strip cluster_name <> ""
      /\ (environ !! "CLUSTER" = Some cluster_name
          \/ (strip (default "" (environ !! "CLUSTER")) = ""
              /\ environ !! "CC_CLUSTER" = Some cluster_name))
  | None =>
      strip (default "" (environ !! "CLUSTER")) = ""
      /\ strip (default "" (environ !! "CC_CLUSTER")) = ""
  end.
Proof.
  unfold utils.look_up_cluster_name_env_var.
  pose proof (look_up_names_run environ utils.CLUSTER_ENV_NAMES) as Hrun.
  destruct (utils.look_up_names _ _) as [cluster_name|].
  - destruct Hrun as (Hname & before & var & after & Heq & Hvar & Hbefore).
    split; [exact Hname|].
    destruct before as [|b1 [|b2 [|b3 before]]]; try discriminate Heq.
    + injection Heq as <- _. now left.
    + injection Heq as <- <- _. right.
      apply Forall_cons in Hbefore as [Hblank _]. now split.
  - apply Forall_cons in Hrun as [H1 Hrun].
    apply Forall_cons in Hrun as [H2 _]. now split.
Qed.

(** ** [parse_arguments] followed by [main] *)

Lemma AVAILABLE_QUEUES_cores name q :
  AVAILABLE_QUEUES !! name = Some q -> 0 < coresPerNode q <= 288.
Proof.
  intros Hq. apply elem_of_list_to_map_2 in Hq.
  repeat (apply elem_of_cons in Hq as [[= -> ->]|Hq]; [simpl; lia|]).
  now apply elem_of_nil in Hq.
Qed.

(** X19. Line 37 followed by the rest of [main], for a launch without
    [--pool] and without [--nbCommandsPerNode] on a queue of
    [AVAILABLE_QUEUES]: when [parse_arguments] returns, the folders of the
    job can be made, there is at least one command, and the scheduler
    takes every job file or [--doNotLaunch] is given, [main] succeeds,
    and the number of job files is the number of commands divided by the
    cores per node of the queue, rounded up; the commands are all in the
    groups, in their order, and each file is submitted unless
    [--doNotLaunch] is given. *)
Theorem launch_on_available_queue `{Collaborators}
    (given : parsed.Namespace) (args : Namespace) (q : queue) (w : world)
    (commandAndOptions : list string) :
  parse_arguments given = Returns args ->
  AVAILABLE_QUEUES !! parsed.queueName given = Some q ->
  parsed.nbCommandsPerNode given = None ->
  parsed.pool given = None ->
  parsed.mode given = launch commandAndOptions ->
  batch_ready args w ->
  1 <= len (launch_commands args commandAndOptions) ->
  exact_length (launch_commands args commandAndOptions) ->
  parsed.doNotLaunch given = true
  \/ (forall qsub_filename, accepted qsub_filename) ->
  let jobname := launch_jobname args commandAndOptions in
  let commands := launch_commands args commandAndOptions in
  exists w' groups,
    main args w = (Ok (), w')
    /\ concat groups = map (redirected (logs_path w jobname)) commands
    /\ (len groups - 1) * coresPerNode q < len commands
       <= len groups * coresPerNode q
    /\ trace w' =
         (trace w
          ++ PBSGenerator_init (parsed.queueName given) (walltime args)
             :: job_calls (commands_path w jobname) 0 groups
          ++ (if parsed.doNotLaunch given then []
              else launch_calls
                     (job_files (commands_path w jobname) 0 groups)))%list.
Proof.
  intros Hret Hq Hn Hpool Hmode Hready Hlen Hexact Hsub jobname commands.
  destruct (AVAILABLE_QUEUES_cores _ q Hq) as [Hcores Hcores'].
  assert (queueName args = parsed.queueName given
          /\ nbCommandsPerNode args = coresPerNode q
          /\ doNotLaunch args = parsed.doNotLaunch given
          /\ pool args = None /\ mode args = launch commandAndOptions)
    as (Hname & Hper & Hdo & Hpool' & Hmode').
  { unfold parse_arguments in Hret.
    destruct given as [qn wt n dnl cf pl md]; simpl in *. subst n pl md.
    rewrite Hq in Hret.
    match type of Hret with
    | match ?inv with Some _ => _ | None => _ end = _ =>
        destruct inv; [discriminate|]
    end.
    destruct wt as [t|]; simpl in Hret; injection Hret as <-; now simpl. }
  assert (float_fits (nbCommandsPerNode args)) as Hfit.
  { unfold float_fits. pose proof exact_below_float as Hlimits.
    rewrite exact_limit_eq in Hlimits. lia. }
  destruct (main_direct_groups args w commandAndOptions Hpool' Hmode' Hready
              Hlen Hexact ltac:(lia) Hfit)
    as (d & groups & Hd & Hl & Hc & Hconcat & Hcount & Hmain).
  fold jobname commands in Hconcat, Hcount, Hmain. simpl in Hmain.
  rewrite Hper in Hcount. rewrite Hname, Hdo in Hmain.
  exists (after (with_dirs w d)
            (PBSGenerator_init (parsed.queueName given) (walltime args)
             :: job_calls (commands_path w jobname) 0 groups
             ++ (if parsed.doNotLaunch given then []
                 else launch_calls
                        (job_files (commands_path w jobname) 0 groups)))),
         groups.
  split; [|split; [exact Hconcat|split; [exact Hcount|reflexivity]]].
  rewrite Hmain. destruct (parsed.doNotLaunch given) eqn:Hgiven.
  - now rewrite app_nil_r.
  - destruct Hsub as [Hsub|Hsub]; [discriminate|].
    rewrite launch_jobs_accepted by (apply Forall_forall; auto).
    unfold after. simpl. now rewrite <- !app_assoc.
Qed.

Lemma launch_on_available_queue_witness :
  exists w',
    @main sample_collaborators
      {| queueName := "qwork@ms"; walltime := "05:00:00:00";
         nbCommandsPerNode := 8; doNotLaunch := false;
         commandsFile := Some three_echoes; pool := None;
         mode := launch [] |} fresh_world
    = (Ok (), w').
Proof.
  destruct (@launch_on_available_queue sample_collaborators
              {| parsed.queueName := "qwork@ms"; parsed.walltime := None;
                 parsed.nbCommandsPerNode := None;
                 parsed.doNotLaunch := false;
                 parsed.commandsFile := Some three_echoes;
                 parsed.pool := None; parsed.mode := launch [] |}
              {| queueName := "qwork@ms"; walltime := "05:00:00:00";
                 nbCommandsPerNode := 8; doNotLaunch := false;
                 commandsFile := Some three_echoes; pool := None;
                 mode := launch [] |}
              (Queue 8 "05:00:00:00") fresh_world [])
    as (w' & groups & Hmain & _).
  - reflexivity.
  - reflexivity.
  - reflexivity.
  - reflexivity.
  - reflexivity.
  - eexists. vm_compute. reflexivity.
  - vm_compute. discriminate.
  - unfold exact_length. rewrite exact_limit_eq. vm_compute. reflexivity.
  - right. intros f. eexists. reflexivity.
  - now exists w'.
Defined.

(** ** A commands file with an absolute name *)

Lemma parents_slash (done pre rest : string) :
  done ++ pre <> "" ->
  done ++ pre ∈ parents done (pre ++ String "/" rest).
Proof.
  revert done. induction pre as [|c pre IH]; intros done Hne.
  - rewrite append_nil_r in *. rewrite append_nil_l. cbn [parents].
    destruct (String.eqb_spec done "") as [->|_]; [now destruct Hne|].
    cbn [Ascii.eqb Bool.eqb andb negb]. apply elem_of_app. left.
    apply list_elem_of_singleton. reflexivity.
  - rewrite append_cons. cbn [parents]. apply elem_of_app. right.
    replace (done ++ String c pre) with ((done ++ String c "") ++ pre)
      by (rewrite append_assoc; reflexivity).
    apply IH. rewrite append_assoc. simpl.
    intros E. apply append_eq_nil in E as [_ E]. discriminate.
Qed.

(** X21. A launch on a commands file that is named by an absolute path
    cannot make its folders: the name of the job is the name of the
    file, so that the job folder is the commands file itself, and
    [os.makedirs] fails on the regular file in the place of a
    directory.  [main] ends in [OSError] before anything is created,
    written or submitted. *)
Theorem main_absolute_commands_file `{Collaborators} (args : Namespace)
    (w : world) (commandAndOptions : list string) (f : file) :
  mode args = launch commandAndOptions -> commandsFile args = Some f ->
  startswith (name f) "/" = true -> endswith (name f) "/" = false ->
  regular_file w (name f) = true ->
  raises (main args w).1 OSError
  /\ (main args w).2 =
       after w [PBSGenerator_init (queueName args) (walltime args)].
Proof.
  intros Hmode Hfile Habs Hend Hreg.
  enough (main args w =
            (Raise (Exn OSError "Not a directory"),
             after w [PBSGenerator_init (queueName args) (walltime args)]))
    as -> by (split; reflexivity).
  set (calls := [PBSGenerator_init (queueName args) (walltime args)]).
  assert (commands_path w (name f) = name f ++ "/commands") as Hpath.
  { unfold commands_path, job_path.
    unfold path_join at 2. rewrite Habs.
    unfold path_join. rewrite Hend.
    destruct (name f); [discriminate|reflexivity]. }
  assert (name f ∈ parents "" (commands_path w (name f))) as Habove.
  { rewrite Hpath.
    apply (parents_slash "" (name f) "commands").
    rewrite append_nil_l. intros E. now rewrite E in Habs. }
  assert (commands_path w (name f) ∉ dirs w) as Hmissing.
  { intros Hin.
    now rewrite (regular_file_above w _ _ Hin Habove) in Hreg. }
  pose proof (create_job_folders_run (name f) (after w calls)) as Hrun.
  change (commands_path (after w calls) (name f))
    with (commands_path w (name f)) in Hrun.
  change (dirs (after w calls)) with (dirs w) in Hrun.
  change (regular_file (after w calls)) with (regular_file w) in Hrun.
  rewrite (bool_decide_eq_false_2 _ Hmissing) in Hrun.
  assert (existsb (regular_file w) (parents "" (commands_path w (name f)))
          = true) as Hex.
  { apply existsb_exists. exists (name f).
    split; [now apply list_elem_of_In|exact Hreg]. }
  rewrite Hex in Hrun. simpl in Hrun.
  unfold main. unfold mbind at 1. unfold io_bind at 1. rewrite emit_run.
  fold calls. unfold mbind at 1. unfold io_bind at 1.
  unfold job_folders. rewrite Hmode, Hfile.
  unfold mbind at 1. unfold io_bind at 1. now rewrite Hrun.
Qed.

Lemma main_absolute_commands_file_witness :
  raises
    (@main sample_collaborators
       (sample_args (File "/home/u/cmds" "echo a") 2 None) fresh_world).1
    OSError.
Proof.
  apply (@main_absolute_commands_file sample_collaborators
           (sample_args (File "/home/u/cmds" "echo a") 2 None)
           fresh_world [] (File "/home/u/cmds" "echo a"));
    reflexivity.
Defined.
